(** * SDATStuff: the NCSF portable-file codec, the tag dictionary, the
      SSEQ sub-file reader and the duration engine, embedded in Rocq.

    Sources embedded here:
    - [src/unnamed/part_000] (common NCSF functions): [MakeNCSF],
      [CheckForValidPSF], [GetProgramSectionFromPSF], the whitespace
      trimmers, [GetTagsFromPSF], both [GetTime] overloads and [Cnv_Scale];
    - [src/unnamed/part_001]: [SSEQ::Read];
    - [src/common/INFOEntry.h]: the INFO entry records.

    Conventions.  A [uint8_t] is a [Byte.byte]; a [std::vector<uint8_t>] is a
    [list byte]; a [uint32_t] is a [Z] with its wrap-around written out
    ([wrap32]); a [std::string] is a [string]; a thrown C++ exception is the
    left injection of a sum. *)

From Stdlib Require Import ZArith QArith Qround Lia DecimalString.
From Stdlib Require Import Strings.Byte Strings.Ascii.
From Stdlib Require Strings.String.
From stdpp Require Import base option list gmap strings.

Local Open Scope Z_scope.

(** ** Exceptions *)

(** What an exception says.  The [what()] text itself is not modelled, only
    which [throw] statement produced it. *)
Inductive message :=
| FileTooSmall                         (* "File is too small." *)
| NotAPSFFile                          (* "Not a PSF file." *)
| VersionByteMismatch (found expected : byte)
| SSEQDataInvalid                      (* "SSEQ DATA structure invalid" *)
| StdHeaderInvalid (tag : string)      (* "NDS Standard Header for ... invalid" *)
| ReadPastEnd.                         (* a cursor read beyond the buffer *)

(** [std::range_error] is the size error, [std::runtime_error] the format
    (structural) error. *)
Inductive exn :=
| range_error (what : message)
| runtime_error (what : message).

(** ** Fixed-width integers and bytes *)

Definition wrap32 (z : Z) : Z := z mod 2 ^ 32.

Global Instance byte_eq_decision : EqDecision byte := Byte.byte_eq_dec.

Definition byte_to_Z (b : byte) : Z := Z.of_N (Byte.to_N b).

Definition byte_of_Z (z : Z) : byte :=
  default x00 (Byte.of_N (Z.to_N (z mod 256))).

(** The value of a [char] holding byte [b], promoted to [int]: negative for
    bytes above 0x7F where [char] is signed. *)
Definition char_to_int (char_signed : bool) (b : byte) : Z :=
  if char_signed && (128 <=? byte_to_Z b) then byte_to_Z b - 256 else byte_to_Z b.

(** Little-endian decoding of a run of bytes. *)
Fixpoint LE_decode (bs : list byte) : Z :=
  match bs with
  | [] => 0
  | b :: rest => byte_to_Z b + 256 * LE_decode rest
  end.

(** Little-endian encoding of the low [n] bytes of [z]. *)
Fixpoint LE_encode (n : nat) (z : Z) : list byte :=
  match n with
  | O => []
  | S n' => byte_of_Z z :: LE_encode n' (z / 256)
  end.

Definition bytes_of_string (s : string) : list byte := String.list_byte_of_string s.

(** ** The read cursor *)

(** Modelled from the spec: [PseudoReadFile] (declared in the repository's
    common header, which is not among the sources).  "A read cursor wraps an
    immutable byte buffer with a mutable position; every read advances the
    position by the decoded width and fails with a range error if the read
    would exceed the buffer.  All multi-byte integers are little-endian." *)
Record PseudoReadFile := mkFile { data : list byte; pos : Z }.

Definition file_size (f : PseudoReadFile) : Z := Z.of_nat (length (data f)).

(** Computations over a cursor that may throw: the state is the cursor, an
    exception ends the computation. *)
Definition M (A : Type) : Type := PseudoReadFile → exn + (A * PseudoReadFile).

Global Instance M_ret : MRet M := λ A a f, inr (a, f).
Global Instance M_bind : MBind M := λ A B k m f,
  match m f with
  | inl e => inl e
  | inr (a, f') => k a f'
  end.
Global Instance M_throw : MThrow exn M := λ A e _, inl e.

(** Reading [file], [file.pos = p] and [file.pos += n]. *)
Definition get_file : M PseudoReadFile := λ f, inr (f, f).
Definition set_pos (p : Z) : M unit := λ f, inr ((), mkFile (data f) p).
Definition skip (n : Z) : M unit := λ f, inr ((), mkFile (data f) (pos f + n)).

(** Modelled from the spec: [PseudoReadFile::ReadLE] into an array or a
    vector of [n] bytes; it "fails with a range error if the read would
    exceed the buffer". *)
Definition ReadLE_bytes (n : Z) : M (list byte) := λ f,
  if (0 <=? pos f) && (0 <=? n) && (pos f + n <=? file_size f)
  then inr (take (Z.to_nat n) (drop (Z.to_nat (pos f)) (data f)),
            mkFile (data f) (pos f + n))
  else inl (range_error ReadPastEnd).

(** Modelled from the spec: [PseudoReadFile::ReadLE<uint8_t>()]. *)
Definition ReadLE_u8 : M byte :=
  bs ← ReadLE_bytes 1; mret (default x00 (head bs)).

(** Modelled from the spec: [PseudoReadFile::ReadLE<uint32_t>()],
    little-endian. *)
Definition ReadLE_u32 : M Z :=
  bs ← ReadLE_bytes 4; mret (LE_decode bs).

(** Does [pat] occur in [l] at its very start? *)
Fixpoint starts_with (pat l : list byte) : bool :=
  match pat, l with
  | [], _ => true
  | _ :: _, [] => false
  | p :: pat', x :: l' => if decide (p = x) then starts_with pat' l' else false
  end.

(** The first offset, counted from [base], at which [pat] occurs in [l]. *)
Fixpoint search_from (pat l : list byte) (base : Z) : option Z :=
  if starts_with pat l then Some base
  else match l with
       | [] => None
       | _ :: l' => search_from pat l' (base + 1)
       end.

(** Modelled from the spec: [PseudoReadFile::GetNextOffset].  "A substring
    search operation (find next offset of byte pattern P at or after
    position K) returns a not-found sentinel distinct from any valid
    offset."  The sentinel (-1 in the callers) is [None] here. *)
Definition GetNextOffset (f : PseudoReadFile) (offset : Z) (valuesToFind : list byte)
  : option Z :=
  search_from valuesToFind (drop (Z.to_nat offset) (data f)) offset.

(** ** The write cursor *)

(** Modelled from the spec: [PseudoWrite], "a write cursor wraps an output
    sink and exposes width-typed little-endian emitters plus raw-byte
    emission; it carries no position (append-only)."  The sink is the list
    of bytes emitted so far. *)
Definition PseudoWrite := list byte.

(** Modelled from the spec: the emitters [WriteLE<uint8_t>],
    [WriteLE<uint32_t>] (little-endian) and [WriteLE] of a byte vector. *)
Definition WriteLE_u8 (v : Z) (o : PseudoWrite) : PseudoWrite := o ++ LE_encode 1 v.
Definition WriteLE_u32 (v : Z) (o : PseudoWrite) : PseudoWrite := o ++ LE_encode 4 v.
Definition WriteLE_bytes (bs : list byte) (o : PseudoWrite) : PseudoWrite := o ++ bs.
(** Modelled from the spec: [WriteLE(str, n)], the first [n] characters of
    a string, verbatim. *)
Definition WriteLE_string (s : string) (n : nat) (o : PseudoWrite) : PseudoWrite :=
  o ++ take n (bytes_of_string s).

(** ** The Tag Dictionary *)

(** Modelled from the spec: [TagList] (its header is not among the sources).
    "Mapping from tag-name to tag-value, insertion order irrelevant for
    storage but preserved for serialization", with the operations
    [set] (overwrite), [exists] and [remove]. *)
Record TagList := mkTags { tags : gmap string string; tagsOrder : list string }.

Definition TagList_empty : TagList := mkTags ∅ [].

(** Modelled from the spec: [TagList::Exists], "exists(name) → bool". *)
Definition Exists (name : string) (t : TagList) : bool :=
  bool_decide (is_Some (tags t !! name)).

(** Modelled from the spec: reading [tags[name]], the value of an existing
    name. *)
Definition TagList_get (name : string) (t : TagList) : string :=
  default "" (tags t !! name).

(** Modelled from the spec: [tags[name] = value], "set(name, value)
    (idempotent overwrite)"; a new name goes to the end of the order. *)
Definition TagList_set (name value : string) (t : TagList) : TagList :=
  mkTags (<[name := value]> (tags t))
         (if Exists name t then tagsOrder t else tagsOrder t ++ [name]).

(** Modelled from the spec: [TagList::Remove], "remove(name)". *)
Definition Remove (name : string) (t : TagList) : TagList :=
  mkTags (delete name (tags t))
         (filter (λ n, n ≠ name) (tagsOrder t)).

(** ** zlib and the file store *)

(** zlib's [compressBound], on a 64-bit [unsigned long]. *)
Definition compressBound (sourceLen : Z) : Z :=
  sourceLen + sourceLen / 2 ^ 12 + sourceLen / 2 ^ 14 + sourceLen / 2 ^ 25 + 13.

(** The files written so far, by name.  Stream failures are not modelled:
    opening and writing succeed. *)
Abbreviation filesystem := (gmap string (list byte)).

Section Codec.

(** Is [char] a signed type on the target? *)
Variable char_signed : bool.

(** zlib, as the codec uses it.  [compress2] is the level-9 deflate of a
    buffer into a destination of [compressBound] bytes; [inflate] is the
    whole stream a compressed buffer inflates to; [crc32] is the checksum
    of a buffer. *)
Variable compress2 : list byte → list byte.
Variable inflate : list byte → list byte.
Variable crc32 : list byte → Z.

(** [uncompress(dest, &destLen, src, srcLen)] with [destLen = length dest]:
    the destination receives as much of the inflated stream as fits, the
    bytes behind it keep their value; the return code is dropped by both
    callers. *)
Definition uncompress (dest src : list byte) : list byte :=
  let out := inflate src in
  take (length dest) out ++ drop (length out) dest.

(** *** MakeNCSF *)

Definition write_tag (o : PseudoWrite) (tag : string) : PseudoWrite :=
  WriteLE_u8 10 (WriteLE_string tag (String.length tag) o).

(** The bytes [MakeNCSF] sends to the stream. *)
Definition MakeNCSF_bytes (reservedSectionData programSectionData : list byte)
    (tagLines : list string) : list byte :=
  let finalProgramSectionData := programSectionData in
  let programCompressedSize0 :=
    if decide (finalProgramSectionData = []) then 0
    else compressBound (Z.of_nat (length finalProgramSectionData)) in
  let programCompressedData :=
    if programCompressedSize0 =? 0 then []
    else compress2 finalProgramSectionData in
  let programCompressedSize :=
    if programCompressedSize0 =? 0 then 0
    else Z.of_nat (length programCompressedData) in
  let ofile : PseudoWrite := [] in
  let ofile := WriteLE_string "PSF" 3 ofile in
  let ofile := WriteLE_u8 37 ofile in
  let ofile := WriteLE_u32 (if decide (reservedSectionData = []) then 0
                            else Z.of_nat (length reservedSectionData)) ofile in
  let ofile := WriteLE_u32 programCompressedSize ofile in
  let ofile := if programCompressedSize =? 0 then WriteLE_u32 0 ofile
               else WriteLE_u32 (crc32 programCompressedData) ofile in
  let ofile := if decide (reservedSectionData = []) then ofile
               else WriteLE_bytes reservedSectionData ofile in
  let ofile := if decide (programCompressedData = []) then ofile
               else WriteLE_bytes programCompressedData ofile in
  if decide (tagLines = []) then ofile
  else foldl write_tag (WriteLE_string "[TAG]" 5 ofile) tagLines.

Definition MakeNCSF (filename : string)
    (reservedSectionData programSectionData : list byte)
    (tagLines : list string) (fs : filesystem) : filesystem :=
  <[filename := MakeNCSF_bytes reservedSectionData programSectionData tagLines]> fs.

(** *** CheckForValidPSF *)

Definition byte_at (l : list byte) (i : nat) : byte := default x00 (l !! i).

Definition CheckForValidPSF (versionByte : byte) : M unit :=
  file ← get_file;
  if file_size file <? 4 then mthrow (range_error FileTooSmall) else
  set_pos 0;;
  PSFHeader ← ReadLE_bytes 4;
  if negb (bool_decide (byte_at PSFHeader 0 = "P"%byte)
           && bool_decide (byte_at PSFHeader 1 = "S"%byte)
           && bool_decide (byte_at PSFHeader 2 = "F"%byte))
  then mthrow (runtime_error NotAPSFFile) else
  if negb (char_to_int char_signed (byte_at PSFHeader 3) =? byte_to_Z versionByte)
  then mthrow (runtime_error (VersionByteMismatch (byte_at PSFHeader 3) versionByte)) else
  if file_size file <? 16 then mthrow (range_error FileTooSmall) else
  reservedSize ← ReadLE_u32;
  programCompressedSize ← ReadLE_u32;
  skip 4;;
  if negb (reservedSize =? 0) && (file_size file <? wrap32 (reservedSize + 16))
  then mthrow (range_error FileTooSmall) else
  skip reservedSize;;
  if negb (programCompressedSize =? 0)
     && (file_size file <? wrap32 (wrap32 (reservedSize + programCompressedSize) + 16))
  then mthrow (range_error FileTooSmall) else
  mret ().

(** *** GetProgramSectionFromPSF *)

(** The free [ReadLE<uint32_t>(&buf[offset])]: four bytes behind a
    pointer into a vector.  Reading outside the vector has no defined
    behaviour: [None]. *)
Definition ReadLE_u32_at (buf : list byte) (offset : Z) : option Z :=
  if (0 <=? offset) && (offset + 4 <=? Z.of_nat (length buf))
  then Some (LE_decode (take 4 (drop (Z.to_nat offset) buf)))
  else None.

(** [None] inside the monad stands for the undefined read above.
    [unsigned long] is taken to be 64 bits wide, so that adding the header
    size does not wrap. *)
Definition GetProgramSectionFromPSF (versionByte : byte)
    (programHeaderSize programSizeOffset : Z) (addHeaderSize : bool)
  : M (option (list byte)) :=
  CheckForValidPSF versionByte;;
  set_pos 4;;
  reservedSize ← ReadLE_u32;
  programCompressedSize ← ReadLE_u32;
  skip 4;;
  if programCompressedSize =? 0 then mret (Some []) else
  (if negb (reservedSize =? 0) then skip reservedSize else mret ());;
  programSectionCompressed ← ReadLE_bytes programCompressedSize;
  let programSectionUncompressed := replicate (Z.to_nat programHeaderSize) x00 in
  let programSectionUncompressed :=
    uncompress programSectionUncompressed programSectionCompressed in
  match ReadLE_u32_at programSectionUncompressed programSizeOffset with
  | None => mret None
  | Some programUncompressedSize =>
      let programUncompressedSize :=
        if addHeaderSize then programUncompressedSize + programHeaderSize
        else programUncompressedSize in
      let programSectionUncompressed :=
        resize (Z.to_nat programUncompressedSize) x00 programSectionUncompressed in
      let programSectionUncompressed :=
        uncompress programSectionUncompressed programSectionCompressed in
      mret (Some programSectionUncompressed)
  end.

(** *** Whitespace trimming *)

(** [x >= 0x01 && x <= 0x20] on a [char]. *)
Definition isWhitespace (x : ascii) : bool :=
  let v := char_to_int char_signed (byte_of_ascii x) in
  (1 <=? v) && (v <=? 32).

(** [std::find_if(first, last, std::not1(isWhitespace))] as the distance
    from [first]. *)
Fixpoint find_if_not_ws (l : list ascii) : nat :=
  match l with
  | [] => O
  | x :: l' => if isWhitespace x then S (find_if_not_ws l') else O
  end.

Definition LeftTrimWhitespace (orig : string) : string :=
  let s := String.list_ascii_of_string orig in
  let first_non_space := find_if_not_ws s in
  String.string_of_list_ascii (drop first_non_space s).

(** The reverse iterator found is turned into a forward one by [base()]. *)
Definition RightTrimWhitespace (orig : string) : string :=
  let s := String.list_ascii_of_string orig in
  let last_non_space := (length s - find_if_not_ws (rev s))%nat in
  String.string_of_list_ascii (take last_non_space s).

Definition TrimWhitespace (orig : string) : string :=
  LeftTrimWhitespace (RightTrimWhitespace orig).

(** *** GetTagsFromPSF *)

Definition TagHeaderVector : list byte := bytes_of_string "[TAG]".

(** The variables the record loop updates. *)
Record tag_state := mkTagState
  { st_tags : TagList; st_name : string; st_value : string; st_onName : bool }.

Definition string_is_empty (s : string) : bool :=
  match s with EmptyString => true | String _ _ => false end.

Definition newline : string := String "010"%char EmptyString.

(** One turn of the loop body on the byte just read. *)
Definition tag_step (curr : ascii) (st : tag_state) : tag_state :=
  if decide (curr = "010"%char) then
    let tags' :=
      if negb (string_is_empty (st_name st)) && negb (string_is_empty (st_value st))
      then
        let name := TrimWhitespace (st_name st) in
        let value := TrimWhitespace (st_value st) in
        if Exists name (st_tags st)
        then TagList_set name (TagList_get name (st_tags st) +:+ (newline +:+ value))
               (st_tags st)
        else TagList_set name value (st_tags st)
      else st_tags st in
    mkTagState tags' "" "" true
  else if decide (curr = "="%char) then
    mkTagState (st_tags st) (st_name st) (st_value st) false
  else if st_onName st then
    mkTagState (st_tags st) (st_name st +:+ String curr EmptyString) (st_value st) true
  else
    mkTagState (st_tags st) (st_name st) (st_value st +:+ String curr EmptyString) false.

(** [for (size_t x = 0; x < lengthOfTags; ++x)] *)
Fixpoint tag_loop (lengthOfTags : nat) (st : tag_state) : M tag_state :=
  match lengthOfTags with
  | O => mret st
  | S n =>
      curr ← ReadLE_u8;
      tag_loop n (tag_step (ascii_of_byte curr) st)
  end.

(** [TagOffset != -1] is [Some] here, see [GetNextOffset]. *)
Definition GetTagsFromPSF (versionByte : byte) : M TagList :=
  CheckForValidPSF versionByte;;
  file ← get_file;
  match GetNextOffset file 0 TagHeaderVector with
  | None => mret TagList_empty
  | Some TagOffset =>
      set_pos (TagOffset + 5);;
      file ← get_file;
      let lengthOfTags := file_size file - pos file in
      st ← tag_loop (Z.to_nat lengthOfTags) (mkTagState TagList_empty "" "" true);
      mret (st_tags st)
  end.

End Codec.

(** ** The SSEQ sub-file *)

(** Modelled from the spec: [NDSStdHeader], the "Standard Sub-Header
    convention shared by all DS archive sub-files (a type tag, declared-size,
    and body-size-minus-header fields ...); a mismatch between the type tag
    and the expected 4-character code is a hard structural error".  Its
    header file is not among the sources; [SSEQ::Read] shows that [Verify]
    receives the expected tag and a magic word only. *)
Record NDSStdHeader := mkStdHeader
  { hdr_type : list byte; hdr_magic : Z; hdr_fileSize : Z; hdr_size : Z; hdr_blocks : Z }.

(** Modelled from the spec: [NDSStdHeader::Read], the fields in their
    order, 16 bytes in all. *)
Definition NDSStdHeader_Read : M NDSStdHeader :=
  type ← ReadLE_bytes 4;
  magic ← ReadLE_u32;
  fileSize ← ReadLE_u32;
  size ← ReadLE_bytes 2;
  blocks ← ReadLE_bytes 2;
  mret (mkStdHeader type magic fileSize (LE_decode size) (LE_decode blocks)).

(** Modelled from the spec: [VerifyHeader], the comparison of a 4-byte type
    tag with "the expected 4-character code". *)
Definition VerifyHeader (type : list byte) (expected : string) : bool :=
  bool_decide (type = bytes_of_string expected).

(** Modelled from the spec: [NDSStdHeader::Verify]; a mismatch "is a hard
    structural error". *)
Definition NDSStdHeader_Verify (typeToCheck : string) (magicToCheck : Z)
    (h : NDSStdHeader) : M unit :=
  if negb (VerifyHeader (hdr_type h) typeToCheck) || negb (hdr_magic h =? magicToCheck)
  then mthrow (runtime_error (StdHeaderInvalid typeToCheck))
  else mret ().

(** The members of [SSEQ] the sources show: the three the constructors of
    [part_001] initialise beside [info], and the [entryNumber] the engine
    reads. *)
Record SSEQ := mkSSEQ
  { sseq_filename : string; sseq_origFilename : string;
    sseq_data : list byte; entryNumber : nat }.

(** [SSEQ::Read]: returns the object with its [data] replaced. *)
Definition SSEQ_Read (this : SSEQ) : M SSEQ :=
  file ← get_file;
  let startOfSSEQ := wrap32 (pos file) in
  header ← NDSStdHeader_Read;
  NDSStdHeader_Verify "SSEQ" 16842495 header;;
  type ← ReadLE_bytes 4;
  if negb (VerifyHeader type "DATA") then mthrow (runtime_error SSEQDataInvalid) else
  size ← ReadLE_u32;
  dataOffset ← ReadLE_u32;
  set_pos (wrap32 (startOfSSEQ + dataOffset));;
  data ← ReadLE_bytes (wrap32 (size - 12));
  mret (mkSSEQ (sseq_filename this) (sseq_origFilename this) data (entryNumber this)).

(** ** The duration engine *)

(** Modelled from the spec: the classification of a verdict,
    "{reached-natural-end, hit-loop-or-timeout}", under the names [END] and
    [LOOP] the engine uses. *)
Inductive TimeType := LOOP | END.

Global Instance TimeType_eq_dec : EqDecision TimeType.
Proof. solve_decision. Defined.

(** Modelled from the spec: [Time], the "value pair (elapsed: real >= 0 or
    sentinel undetermined, classification)".  The elapsed seconds are a
    [double] in the program and a rational here. *)
Record Time := mkTime { time : Q; type : TimeType }.

(** [static_cast<int>(x)]: truncation towards zero (the range of [int] is
    not modelled). *)
Definition static_cast_int (x : Q) : Z := Z.quot (Qnum x) (Z.pos (Qden x)).

(** The undetermined verdict is recognised by [static_cast<int>(time) == -1]. *)
Definition undetermined (t : Time) : bool := static_cast_int (time t) =? -1.

Definition Cnv_Scale_lut : list Z :=
  [ -32768; -421; -361; -325; -300; -281; -265; -252;
    -240; -230; -221; -212; -205; -198; -192; -186;
    -180; -175; -170; -165; -161; -156; -152; -148;
    -145; -141; -138; -134; -131; -128; -125; -122;
    -120; -117; -114; -112; -110; -107; -105; -103;
    -100; -98; -96; -94; -92; -90; -88; -86;
    -85; -83; -81; -79; -78; -76; -74; -73;
    -71; -70; -68; -67; -65; -64; -62; -61;
    -60; -58; -57; -56; -54; -53; -52; -51;
    -49; -48; -47; -46; -45; -43; -42; -41;
    -40; -39; -38; -37; -36; -35; -34; -33;
    -32; -31; -30; -29; -28; -27; -26; -25;
    -24; -23; -23; -22; -21; -20; -19; -18;
    -17; -17; -16; -15; -14; -13; -12; -12;
    -11; -10; -9; -9; -8; -7; -6; -6;
    -5; -4; -3; -3; -2; -1; -1; 0 ].

(** Called on a [uint8_t] volume, so [scale] is within 0..255. *)
Definition Cnv_Scale (scale : Z) : Z :=
  let scale := if negb (Z.land scale 128 =? 0) then 127 else scale in
  default 0 (Cnv_Scale_lut !! Z.to_nat scale).

Section Engine.

(** The parsed bank and wave-archive payloads are opaque to the engine. *)
Context {SBNK SWAR : Type}.

(** The INFO entries of [INFOEntry.h], with the fields of the base record
    first. A resolved pointer is an [option]. *)
Record INFOEntrySEQ := mkInfoSEQ
  { seq_fileData : list byte; seq_origFilename : string; seq_sdatNumber : string;
    seq_fileID : Z; seq_unknown : Z; bank : Z; vol : Z; cpr : Z; ppr : Z; ply : Z;
    seq_unknown2 : list Z; seq_sseq : option SSEQ }.

Record INFOEntryBANK := mkInfoBANK
  { bank_fileData : list byte; bank_origFilename : string; bank_sdatNumber : string;
    bank_fileID : Z; bank_unknown : Z; waveArc : list Z; sbnk : option SBNK }.

Record INFOEntryWAVEARC := mkInfoWAVEARC
  { wa_fileData : list byte; wa_origFilename : string; wa_sdatNumber : string;
    wa_fileID : Z; wa_unknown : Z; swar : option SWAR }.

(** Modelled from the spec: the archive aggregate, "four fixed-kind record
    tables (one per variant), each a sparse ordered sequence indexed by
    file id"; these are the three tables of [sdat->infoSection] the engine
    reads, and an index outside a table finds nothing. *)
Record SDAT := mkSDAT
  { SEQrecord : list INFOEntrySEQ;
    BANKrecord : list INFOEntryBANK;
    WAVEARCrecord : list INFOEntryWAVEARC }.

(** Modelled from the spec: the interpreter collaborator, "configure(raw
    sequence bytes, source label), bindBank, bindWaveArchive(slot 0..3),
    setVolumeScalar, enableNoteEmission, setWallClockCeiling", as the
    record of the members of [TimerPlayer] this code sets before a run. *)
Record TimerPlayer := mkPlayer
  { p_sseq : option (SSEQ * string);
    p_sseqVol : Z;
    p_sbnk : option SBNK;
    p_swar : list (option SWAR);
    p_maxSeconds : Q;
    p_doNotes : bool;
    p_loops : Z }.

(** Modelled from the spec: a run of the interpreter "on its own thread of
    control", as the polling thread sees it: the value of the shared flag
    [doLength] at each poll, and the [length] the thread leaves behind. *)
Record Run := mkRun { doLength_at : nat → bool; run_length : Time }.

(** A freshly constructed player and the interpreter are the external
    collaborator. *)
Variable new_TimerPlayer : TimerPlayer.
Variable interpreter : TimerPlayer → Run.

(** [SecondsToString] and [stringify] come from the common header. *)
Variable SecondsToString : Q → string.
Variable stringify : Z → string.

Definition Setup (sseq : SSEQ) (name : string) (p : TimerPlayer) : TimerPlayer :=
  mkPlayer (Some (sseq, name)) (p_sseqVol p) (p_sbnk p) (p_swar p)
           (p_maxSeconds p) (p_doNotes p) (p_loops p).
Definition set_maxSeconds (s : Q) (p : TimerPlayer) : TimerPlayer :=
  mkPlayer (p_sseq p) (p_sseqVol p) (p_sbnk p) (p_swar p) s (p_doNotes p) (p_loops p).
Definition set_sseqVol (v : Z) (p : TimerPlayer) : TimerPlayer :=
  mkPlayer (p_sseq p) v (p_sbnk p) (p_swar p) (p_maxSeconds p) (p_doNotes p) (p_loops p).
Definition set_sbnk (b : option SBNK) (p : TimerPlayer) : TimerPlayer :=
  mkPlayer (p_sseq p) (p_sseqVol p) b (p_swar p) (p_maxSeconds p) (p_doNotes p) (p_loops p).
Definition set_swar (i : nat) (w : option SWAR) (p : TimerPlayer) : TimerPlayer :=
  mkPlayer (p_sseq p) (p_sseqVol p) (p_sbnk p) (<[i := w]> (p_swar p))
           (p_maxSeconds p) (p_doNotes p) (p_loops p).
Definition set_doNotes (b : bool) (p : TimerPlayer) : TimerPlayer :=
  mkPlayer (p_sseq p) (p_sseqVol p) (p_sbnk p) (p_swar p) (p_maxSeconds p) b (p_loops p).
Definition set_loops (n : Z) (p : TimerPlayer) : TimerPlayer :=
  mkPlayer (p_sseq p) (p_sseqVol p) (p_sbnk p) (p_swar p) (p_maxSeconds p) (p_doNotes p) n.

(** The polling loop [for (; i < loopCount; ++i)]: [remaining] polls are
    left, [i] have been made; the result is the final [i]. *)
Fixpoint poll (flag : nat → bool) (remaining i : nat) : nat :=
  match remaining with
  | O => i
  | S r => if flag i then (* sleep 150 ms *) poll flag r (S i) else i
  end.

(** The static [GetTime(player, loopCount, numberOfLoops)]. *)
Definition GetTime_player (player : TimerPlayer) (loopCount : nat) (numberOfLoops : Z)
  : Time :=
  let player := set_loops numberOfLoops player in
  let thread := interpreter player in
  let i := poll (doLength_at thread) loopCount O in
  if decide (i = loopCount)
  then mkTime (-1) LOOP
  else run_length thread.

(** The loop binding the wave archives of the bank. *)
Fixpoint bind_swars (sdat : SDAT) (sbnkInfo : INFOEntryBANK) (i : nat) (n : nat)
    (p : TimerPlayer) : option TimerPlayer :=
  match n with
  | O => Some p
  | S n' =>
      w ← waveArc sbnkInfo !! i;
      if negb (w =? 65535) then
        e ← WAVEARCrecord sdat !! Z.to_nat w;
        bind_swars sdat sbnkInfo (S i) n' (set_swar i (swar e) p)
      else bind_swars sdat sbnkInfo (S i) n' p
  end.

(** What a call of the public [GetTime] leaves behind: the tags, the lines
    sent to [std::cout], and the probe passes it ran (player and poll
    bound of each, in order). *)
Record outcome := mkOutcome
  { out_tags : TagList; out_cout : list string; out_passes : list (TimerPlayer * nat) }.

(** Lines 358-384: the one or two probe passes.  The result is the final
    [length], [gotLength] and the passes run. *)
Definition GetTime_passes (sdat : SDAT) (sseq : SSEQ) (numberOfLoops : Z)
  : option (Time * bool * list (TimerPlayer * nat)) :=
  info ← SEQrecord sdat !! entryNumber sseq;
  let player := new_TimerPlayer in
  let player := Setup sseq (seq_origFilename info) player in
  let player := set_maxSeconds 6000 player in
  let length := GetTime_player player 20 numberOfLoops in
  let gotLength := false in
  if negb (static_cast_int (time length) =? -1) && bool_decide (type length = END) then
    let player2 := new_TimerPlayer in
    let player2 := set_sseqVol (Cnv_Scale (vol info)) player2 in
    let player2 := Setup sseq (seq_origFilename info) player2 in
    sbnkInfo ← BANKrecord sdat !! Z.to_nat (bank info);
    let player2 := set_sbnk (sbnk sbnkInfo) player2 in
    player2 ← bind_swars sdat sbnkInfo 0 4 player2;
    let player2 := set_maxSeconds (time length + 30) player2 in
    let player2 := set_doNotes true player2 in
    let oldLength := length in
    let length := GetTime_player player2 40 numberOfLoops in
    if negb (static_cast_int (time length) =? -1)
    then Some (length, true, [(player, 20%nat); (player2, 40%nat)])
    else Some (oldLength, gotLength, [(player, 20%nat); (player2, 40%nat)])
  else Some (length, gotLength, [(player, 20%nat)]).

Definition loop_or_one_shot (t : TimeType) : string :=
  match t with LOOP => "timed to 2 loops" | END => "one-shot" end.

(** Lines 385-407: the tags derived from the final [length]. *)
Definition GetTime_tags (filename : string) (tags : TagList) (verbose : bool)
    (fadeLoop fadeOneShot : Z) (length : Time) (gotLength : bool)
  : TagList * list string :=
  if negb (static_cast_int (time length) =? -1) then
    let tags :=
      if decide (type length = LOOP)
      then TagList_set "fade" (stringify fadeLoop) tags
      else TagList_set "fade" (stringify fadeOneShot) tags in
    let length :=
      if static_cast_int (time length) =? 0 then mkTime 1 (type length) else length in
    let lengthString := SecondsToString (inject_Z (Qceiling (time length))) in
    let tags := TagList_set "length" lengthString tags in
    let cout :=
      if verbose then
        ["Time for " +:+ filename +:+ ": " +:+ lengthString +:+ " (" +:+
           loop_or_one_shot (type length) +:+ ")" +:+ newline] ++
        (if bool_decide (type length = END) && negb gotLength
         then ["(NOTE: Was unable to detect silence at the end of the track, time may be inaccurate.)" +:+ newline]
         else [])
      else [] in
    (tags, cout)
  else if verbose then
    let tags := Remove "fade" tags in
    let tags := Remove "length" tags in
    (tags, ["Unable to calculate time for " +:+ filename +:+ newline])
  else (tags, []).

(** The public [GetTime]; [None] when a table index of the archive is out
    of range, where the program has no defined behaviour. *)
Definition GetTime (filename : string) (sdat : SDAT) (sseq : SSEQ) (tags : TagList)
    (verbose : bool) (numberOfLoops fadeLoop fadeOneShot : Z) : option outcome :=
  '(length, gotLength, passes) ← GetTime_passes sdat sseq numberOfLoops;
  let '(tags, cout) :=
    GetTime_tags filename tags verbose fadeLoop fadeOneShot length gotLength in
  Some (mkOutcome tags cout passes).

End Engine.

(** ** File names, directories and the removal of files *)

(** [std::string::rfind(c)]: the last position of [c]; [npos] is [None]. *)
Fixpoint rfind (c : ascii) (l : list ascii) : option nat :=
  match l with
  | [] => None
  | x :: l' =>
      match rfind c l' with
      | Some i => Some (S i)
      | None => if decide (x = c) then Some O else None
      end
  end.

(** The lambda [GetExtension]: [filename.substr(dot)] behind the last dot. *)
Definition GetExtension (filename : string) : string :=
  let s := String.list_ascii_of_string filename in
  match rfind "."%char s with
  | None => ""
  | Some dot => String.string_of_list_ascii (drop dot s)
  end.

(** [s.c_str()] as a C function reads it: the characters before the first
    NUL. *)
Fixpoint c_str_chars (l : list ascii) : list ascii :=
  match l with
  | [] => []
  | x :: l' => if decide (x = "000"%char) then [] else x :: c_str_chars l'
  end.

Definition c_str (s : string) : string :=
  String.string_of_list_ascii (c_str_chars (String.list_ascii_of_string s)).

Section Directory.

(** The operating system, as [GetFilesInDirectory] sees it: [opendir] and
    the names [readdir] then hands out, in its order ([None] when the
    directory cannot be opened); and [DirExists] of the common header. *)
Variable opendir : string → option (list string).
Variable DirExists : string → bool.

(** The body of the [while] loop on one directory entry. *)
Definition directory_entry (finalPath : string) (extensions : list string)
    (files : list string) (filename : string) : list string :=
  if bool_decide (filename = ".") || bool_decide (filename = "..") then files else
  let fullPath := finalPath +:+ filename in
  if DirExists fullPath then files else
  let thisExtension := GetExtension filename in
  let extensionMatch := list_find (λ extension, extension = thisExtension) extensions in
  if bool_decide (extensions = []) || bool_decide (is_Some extensionMatch)
  then files ++ [fullPath]
  else files.

(** [finalPath[path.size() - 1]] has no defined value for the empty path:
    [None]. *)
Definition GetFilesInDirectory (path : string) (extensions : list string)
  : option (list string) :=
  match last (String.list_ascii_of_string path) with
  | None => None
  | Some c =>
      let finalPath := if decide (c = "/"%char) then path else path +:+ "/" in
      match opendir (c_str path) with
      | Some entries => Some (foldl (directory_entry finalPath extensions) [] entries)
      | None => Some []
      end
  end.

End Directory.

(** [RemoveFiles]: [remove] takes each name out of the file store; what it
    returns is dropped. *)
Definition RemoveFiles (files : list string) (fs : filesystem) : filesystem :=
  foldl (λ fs file, delete (c_str file) fs) fs files.

(** * Notions used in the statements *)

(** The header fields of a buffer, as the checks see them. *)
Definition magic_ok (d : list byte) : bool :=
  bool_decide (byte_at d 0 = "P"%byte) && bool_decide (byte_at d 1 = "S"%byte)
  && bool_decide (byte_at d 2 = "F"%byte).
Definition version_ok (char_signed : bool) (d : list byte) (versionByte : byte) : bool :=
  char_to_int char_signed (byte_at d 3) =? byte_to_Z versionByte.
Definition reserved_size (d : list byte) : Z := LE_decode (take 4 (drop 4 d)).
Definition program_size (d : list byte) : Z := LE_decode (take 4 (drop 8 d)).

(** The loop of [GetTagsFromPSF] as a left fold over the bytes behind the
    marker. *)
Definition parse_tags (char_signed : bool) (bs : list byte) : tag_state :=
  foldl (λ st b, tag_step char_signed (ascii_of_byte b) st)
        (mkTagState TagList_empty "" "" true) bs.

(** The string holds no '='. *)
Definition no_equals (s : string) : Prop :=
  "="%char ∉ String.list_ascii_of_string s.

(** Neither the accumulators nor the dictionary ever hold an '='. *)
Definition separator_free (st : tag_state) : Prop :=
  no_equals (st_name st) ∧ no_equals (st_value st) ∧
  map_Forall (λ name value, no_equals name ∧ no_equals value) (tags (st_tags st)).

(** The bytes of the tag block behind the marker. *)
Definition tag_lines (tagLines : list string) : list byte :=
  concat (map (λ s, take (String.length s) (bytes_of_string s) ++ LE_encode 1 10) tagLines).

(** The compressed program section [MakeNCSF] writes. *)
Definition compressed (compress2 : list byte → list byte)
    (programSectionData : list byte) : list byte :=
  if decide (programSectionData = []) then [] else compress2 programSectionData.

Definition tag_block (tagLines : list string) : list byte :=
  if decide (tagLines = []) then [] else TagHeaderVector ++ tag_lines tagLines.

(** What the first [uncompress] of [GetProgramSectionFromPSF] leaves in its
    buffer of [hs] zero bytes: the first [hs] bytes of the program, padded
    with zeros when the program is shorter. *)
Definition program_header (hs : Z) (program : list byte) : list byte :=
  take (Z.to_nat hs) program ++ replicate (Z.to_nat hs - length program) x00.

(** The size the program announces for itself: the 32-bit field at [off] of
    its header, plus the header size when [add] is set. *)
Definition embedded_size (hs off : Z) (add : bool) (program : list byte) : Z :=
  LE_decode (take 4 (drop (Z.to_nat off) (program_header hs program)))
  + (if add then hs else 0).

(** The fields [SSEQ::Read] looks at, counted from the start of the
    sub-file at offset [p]. *)
Definition sseq_tag (d : list byte) (p : Z) : list byte :=
  take 4 (drop (Z.to_nat p) d).
Definition sseq_magic (d : list byte) (p : Z) : Z :=
  LE_decode (take 4 (drop (Z.to_nat (p + 4)) d)).
Definition sseq_data_tag (d : list byte) (p : Z) : list byte :=
  take 4 (drop (Z.to_nat (p + 16)) d).
Definition sseq_data_size (d : list byte) (p : Z) : Z :=
  LE_decode (take 4 (drop (Z.to_nat (p + 20)) d)).
Definition sseq_data_offset (d : list byte) (p : Z) : Z :=
  LE_decode (take 4 (drop (Z.to_nat (p + 24)) d)).

(** Every table index the second pass follows is within its table. *)
Definition archive_resolved {SBNK SWAR : Type} (sdat : @SDAT SBNK SWAR) (sseq : SSEQ) : Prop :=
  ∃ info, SEQrecord sdat !! entryNumber sseq = Some info ∧
  ∃ sbnkInfo, BANKrecord sdat !! Z.to_nat (bank info) = Some sbnkInfo ∧
    ∀ i : nat, (i < 4)%nat →
      ∃ w, waveArc sbnkInfo !! i = Some w
           ∧ (w ≠ 65535 → is_Some (WAVEARCrecord sdat !! Z.to_nat w)).

(** ** Concrete buffers *)

(** The 16-byte header of a portable file. *)
Definition psf_header (version : byte) (R C crc : Z) : list byte :=
  bytes_of_string "PSF" ++ [version] ++ LE_encode 4 R ++ LE_encode 4 C ++ LE_encode 4 crc.

Definition line (s : string) : string := s +:+ newline.

(** A header announcing a reserved section of 0xFFFFFFF0 bytes, and nothing
    behind it. *)
Definition huge_reserved_buffer : list byte := psf_header x25 4294967280 0 0.

(** An empty file body followed by a tag block whose only record has a
    blank name. *)
Definition blank_name_buffer : list byte :=
  psf_header x25 0 0 0 ++ bytes_of_string ("[TAG]" +:+ line " =x").

(** The same with a blank value. *)
Definition blank_value_buffer : list byte :=
  psf_header x25 0 0 0 ++ bytes_of_string ("[TAG]" +:+ line "q= ").

(** A file whose 9 reserved bytes read "[TAG]x=y" and a newline, followed by
    the tag block proper. *)
Definition marker_in_reserved_buffer : list byte :=
  psf_header x25 9 0 0 ++ bytes_of_string ("[TAG]" +:+ line "x=y")
  ++ bytes_of_string ("[TAG]" +:+ line "a=b").

(** A file holding the one tag line "a=b=c", as [MakeNCSF] writes it. *)
Definition two_separators_buffer : list byte :=
  MakeNCSF_bytes (λ x, x) (λ _, 0) [] [] ["a=b=c"].

(** A stand-in for zlib that inverts itself and never gives an empty
    stream: the stream of a buffer is the buffer behind one framing byte. *)
Definition framed (p : list byte) : list byte := x78 :: p.
Definition unframed (s : list byte) : list byte := tail s.

(** A program made of nothing but its 4-byte size field. *)
Definition sized_program : list byte := LE_encode 4 4.

(** A well-formed SSEQ sub-file with a payload of three bytes. *)
Definition demo_sseq_file : list byte :=
  bytes_of_string "SSEQ" ++ LE_encode 4 16842495 ++ LE_encode 4 31
  ++ LE_encode 2 16 ++ LE_encode 2 1
  ++ bytes_of_string "DATA" ++ LE_encode 4 15 ++ LE_encode 4 28
  ++ [x90; x3c; xff].

(** The same with the data tag spoilt. *)
Definition bad_data_tag_file : list byte :=
  bytes_of_string "SSEQ" ++ LE_encode 4 16842495 ++ LE_encode 4 31
  ++ LE_encode 2 16 ++ LE_encode 2 1
  ++ bytes_of_string "DATB" ++ LE_encode 4 15 ++ LE_encode 4 28
  ++ [x90; x3c; xff].

(** ** A small archive and three interpreters *)

(** Decimal rendering, standing for [stringify], and minutes and seconds,
    standing for [SecondsToString]. *)
Definition decimal (z : Z) : string := NilZero.string_of_int (Z.to_int z).
Definition minutes_seconds (seconds : Q) : string :=
  let s := Qfloor seconds in
  decimal (s / 60) +:+ ":" +:+ (if s mod 60 <? 10 then "0" else "") +:+ decimal (s mod 60).

Definition fresh_player : @TimerPlayer () () :=
  mkPlayer None 0 None [None; None; None; None] 0 false 0.

Definition demo_sseq : SSEQ := mkSSEQ "BGM_TITLE.sseq" "BGM_TITLE" [] 0.

(** One sequence, played with one bank that names no wave archive. *)
Definition demo_sdat : @SDAT () () :=
  mkSDAT [mkInfoSEQ [] "BGM_TITLE" "" 0 0 0 100 64 64 0 [0; 0] (Some demo_sseq)]
         [mkInfoBANK [] "BANK_TITLE" "" 1 0 [65535; 65535; 65535; 65535] None]
         [].

(** An interpreter that never clears the flag. *)
Definition never_finishes (player : @TimerPlayer () ()) : Run :=
  mkRun (λ _, true) (mkTime 0 LOOP).

(** A one-shot track: the silent pass ends after 10 seconds, the audible one
    hears the last note die after 12.3 seconds; either ends at the third
    poll. *)
Definition one_shot (player : @TimerPlayer () ()) : Run :=
  mkRun (λ j, (j <? 3)%nat)
        (mkTime (if p_doNotes player then 123 # 10 else 10) END).

(** A looping track, timed to its loops at 95 seconds. *)
Definition looping (player : @TimerPlayer () ()) : Run :=
  mkRun (λ j, (j <? 2)%nat) (mkTime 95 LOOP).

(** Tags left from an earlier run. *)
Definition stale_tags : TagList :=
  TagList_set "length" "1:23" (TagList_set "fade" "10" TagList_empty).

(** The passes of the one-shot track. *)
Definition one_shot_passes : list (@TimerPlayer () () * nat) :=
  Eval vm_compute in
    match GetTime_passes fresh_player one_shot demo_sdat demo_sseq 2 with
    | Some (_, _, passes) => passes
    | None => []
    end.

(** ** Notions and inputs of the further properties *)

(** The compressed program section of a buffer, as [GetProgramSectionFromPSF]
    reads it. *)
Definition compressed_section (d : list byte) : list byte :=
  take (Z.to_nat (program_size d)) (drop (Z.to_nat (16 + reserved_size d)) d).

(** The size the inflated stream of a buffer announces for itself: the
    32-bit field at [off] of the [hs] bytes the first [uncompress] leaves,
    plus [hs] when [add] is set. *)
Definition announced_size (inflate : list byte → list byte) (hs off : Z) (add : bool)
    (d : list byte) : Z :=
  LE_decode (take 4 (drop (Z.to_nat off)
               (uncompress inflate (replicate (Z.to_nat hs) x00) (compressed_section d))))
  + (if add then hs else 0).

(** A 12-byte buffer with a wrong magic. *)
Definition short_bad_magic_buffer : list byte := bytes_of_string "RIFF" ++ replicate 8 x00.

(** A file with a three-byte reserved section and the program 08 00 00 00
    AA BB CC DD, framed. *)
Definition program_buffer : list byte :=
  MakeNCSF_bytes framed (λ _, 0) [x01; x02; x03]
    (LE_encode 4 8 ++ [xaa; xbb; xcc; xdd]) [].

(** Whitespace at the ends of a string, and nothing but whitespace. *)
Definition all_whitespace (char_signed : bool) (s : string) : bool :=
  forallb (isWhitespace char_signed) (String.list_ascii_of_string s).
Definition starts_with_whitespace (char_signed : bool) (s : string) : bool :=
  match String.list_ascii_of_string s with
  | c :: _ => isWhitespace char_signed c
  | [] => false
  end.
Definition ends_with_whitespace (char_signed : bool) (s : string) : bool :=
  match last (String.list_ascii_of_string s) with
  | Some c => isWhitespace char_signed c
  | None => false
  end.

(** The string holds no byte 0x0A. *)
Definition no_newline (s : string) : Prop :=
  "010"%char ∉ String.list_ascii_of_string s.

(** What the record loop does to the dictionary with a trimmed name and
    value (the [if (tags.Exists(name))] of [GetTagsFromPSF]). *)
Definition merge_append (name value : string) (t : TagList) : TagList :=
  if Exists name t
  then TagList_set name (TagList_get name t +:+ (newline +:+ value)) t
  else TagList_set name value t.



(** The name being read holds no 0x0A, and every key is trimmed and holds
    no 0x0A. *)
Definition keys_trimmed (char_signed : bool) (st : tag_state) : Prop :=
  no_newline (st_name st)
  ∧ map_Forall (λ name _, TrimWhitespace char_signed name = name ∧ no_newline name)
               (tags (st_tags st)).

(** The record loop over characters, from any state. *)
Definition parse_chars (char_signed : bool) (st : tag_state) (l : list ascii) : tag_state :=
  foldl (λ st c, tag_step char_signed c st) st l.

(** A valid file without any tag block, and one whose last record lacks
    its 0x0A. *)
Definition no_tags_buffer : list byte := psf_header x25 2 0 0 ++ [x5b; x54].
Definition unterminated_record_buffer : list byte :=
  psf_header x25 0 0 0 ++ TagHeaderVector ++ bytes_of_string (line "a=b") ++ bytes_of_string "c=d".


(** A tag block with a line without '=' and a line without a name between
    two records. *)
Definition stray_lines_buffer : list byte :=
  psf_header x25 0 0 0 ++ TagHeaderVector
  ++ bytes_of_string (line "a=b") ++ bytes_of_string (line "no separator")
  ++ bytes_of_string (line "=no name=x") ++ bytes_of_string (line "c=d").

(** The string holds no '.'. *)
Definition no_dot (s : string) : Prop :=
  "."%char ∉ String.list_ascii_of_string s.

(** The path with the slash [GetFilesInDirectory] puts behind it when it
    does not end in one. *)
Definition with_slash (path : string) : string :=
  if bool_decide (last (String.list_ascii_of_string path) = Some "/"%char)
  then path else path +:+ "/".

(** The directory entries [GetFilesInDirectory] reports: neither "." nor
    "..", no directory, and of one of the extensions when any is given. *)
Definition listed (DirExists : string → bool) (finalPath : string)
    (extensions : list string) (filename : string) : bool :=
  negb (bool_decide (filename = ".")) && negb (bool_decide (filename = ".."))
  && negb (DirExists (finalPath +:+ filename))
  && (bool_decide (extensions = []) || bool_decide (GetExtension filename ∈ extensions)).

(** A directory "music" with two sequences, a bank, a sub-directory and a
    file without extension. *)
Definition demo_opendir (path : string) : option (list string) :=
  if bool_decide (path = "music")
  then Some ["."; ".."; "a.sseq"; "b.sbnk"; "old"; "c.sseq"; "README"]
  else None.
Definition demo_DirExists (path : string) : bool := bool_decide (path = "music/old").

(** An archive whose bank names wave archive 0 in its second slot only. *)
Definition wave_sdat : @SDAT () () :=
  mkSDAT [mkInfoSEQ [] "BGM_TITLE" "" 0 0 0 100 64 64 0 [0; 0] (Some demo_sseq)]
         [mkInfoBANK [] "BANK_TITLE" "" 1 0 [65535; 0; 65535; 65535] None]
         [mkInfoWAVEARC [] "WAVE_TITLE" "" 2 0 (Some ())].

(** What the probe passes of the one-shot track give on that archive:
    the final verdict, [gotLength], and the passes. *)
Definition wave_run : Time * bool * list (@TimerPlayer () () * nat) :=
  Eval vm_compute in
    default (mkTime 0 LOOP, false, [])
            (GetTime_passes fresh_player one_shot wave_sdat demo_sseq 2).

(** * Properties *)

(** ** Bytes and little-endian fields *)

Lemma byte_to_Z_range b : 0 <= byte_to_Z b < 256.
Proof.
  unfold byte_to_Z. pose proof (Byte.to_N_bounded b). lia.
Qed.

Lemma byte_of_to_Z b : byte_of_Z (byte_to_Z b) = b.
Proof.
  unfold byte_of_Z. pose proof (byte_to_Z_range b) as Hb.
  rewrite Z.mod_small by lia. unfold byte_to_Z.
  rewrite N2Z.id, Byte.of_to_N. reflexivity.
Qed.

Lemma byte_to_of_Z z : byte_to_Z (byte_of_Z z) = z mod 256.
Proof.
  unfold byte_of_Z, byte_to_Z.
  assert (Hr : 0 <= z mod 256 < 256) by (apply Z.mod_pos_bound; lia).
  destruct (Byte.of_N (Z.to_N (z mod 256))) as [b|] eqn:E.
  - apply Byte.to_of_N in E. simpl. rewrite E. lia.
  - apply Byte.of_N_None_iff in E. lia.
Qed.

Lemma LE_decode_encode n z : LE_decode (LE_encode n z) = z mod 256 ^ Z.of_nat n.
Proof.
  revert z. induction n as [|n IH]; intros z.
  - simpl. rewrite Z.mod_1_r. reflexivity.
  - cbn [LE_encode LE_decode]. rewrite byte_to_of_Z, IH.
    rewrite Nat2Z.inj_succ, Z.pow_succ_r by lia.
    rewrite Z.rem_mul_r by lia. reflexivity.
Qed.

Lemma LE_decode_encode_u32 z : LE_decode (LE_encode 4 z) = wrap32 z.
Proof. rewrite LE_decode_encode. reflexivity. Qed.

Lemma LE_encode_length n z : length (LE_encode n z) = n.
Proof. revert z. induction n as [|n IH]; intros z; simpl; [|rewrite IH]; reflexivity. Qed.

Lemma LE_decode_range bs : 0 <= LE_decode bs < 256 ^ Z.of_nat (length bs).
Proof.
  induction bs as [|b bs IH].
  - simpl. lia.
  - cbn [LE_decode length]. rewrite Nat2Z.inj_succ, Z.pow_succ_r by lia.
    pose proof (byte_to_Z_range b). lia.
Qed.

Lemma wrap32_small z : 0 <= z < 2 ^ 32 → wrap32 z = z.
Proof. intros H. unfold wrap32. apply Z.mod_small. exact H. Qed.

Lemma wrap32_range z : 0 <= wrap32 z < 2 ^ 32.
Proof. unfold wrap32. apply Z.mod_pos_bound. lia. Qed.

(** ** The cursor *)

Lemma ReadLE_bytes_ok n f :
  0 <= pos f → 0 <= n → pos f + n <= file_size f →
  ReadLE_bytes n f =
    inr (take (Z.to_nat n) (drop (Z.to_nat (pos f)) (data f)), mkFile (data f) (pos f + n)).
Proof.
  intros Hp Hn Hs. unfold ReadLE_bytes.
  rewrite (proj2 (Z.leb_le _ _) Hp), (proj2 (Z.leb_le _ _) Hn), (proj2 (Z.leb_le _ _) Hs).
  reflexivity.
Qed.

Lemma ReadLE_u32_ok f :
  0 <= pos f → pos f + 4 <= file_size f →
  ReadLE_u32 f =
    inr (LE_decode (take 4 (drop (Z.to_nat (pos f)) (data f))), mkFile (data f) (pos f + 4)).
Proof.
  intros Hp Hs. unfold ReadLE_u32, mbind, M_bind.
  rewrite ReadLE_bytes_ok by lia. reflexivity.
Qed.

Lemma byte_at_take (l : list byte) (n i : nat) :
  (i < n)%nat → byte_at (take n l) i = byte_at l i.
Proof. intros H. unfold byte_at. rewrite lookup_take_lt by exact H. reflexivity. Qed.

(** ** CheckForValidPSF, stage by stage *)

Section Validate.

Variable char_signed : bool.


(** The checks in the order the function makes them; no cursor read of
    the function can fail. *)
Lemma CheckForValidPSF_run versionByte d p :
  CheckForValidPSF char_signed versionByte (mkFile d p) =
    let size := Z.of_nat (length d) in
    if size <? 4 then inl (range_error FileTooSmall)
    else if negb (magic_ok d) then inl (runtime_error NotAPSFFile)
    else if negb (version_ok char_signed d versionByte)
         then inl (runtime_error (VersionByteMismatch (byte_at d 3) versionByte))
    else if size <? 16 then inl (range_error FileTooSmall)
    else if negb (reserved_size d =? 0) && (size <? wrap32 (reserved_size d + 16))
         then inl (range_error FileTooSmall)
    else if negb (program_size d =? 0)
            && (size <? wrap32 (wrap32 (reserved_size d + program_size d) + 16))
         then inl (range_error FileTooSmall)
    else inr ((), mkFile d (16 + reserved_size d)).
Proof.
  unfold CheckForValidPSF. cbn zeta.
  unfold mbind at 1. unfold M_bind at 1. unfold get_file at 1.
  change (file_size (mkFile d p)) with (Z.of_nat (length d)).
  destruct (Z.of_nat (length d) <? 4) eqn:H4; [reflexivity|].
  apply Z.ltb_ge in H4.
  unfold mbind at 1, M_bind at 1, set_pos at 1. cbn [data pos].
  unfold mbind at 1, M_bind at 1.
  rewrite ReadLE_bytes_ok by (unfold file_size; cbn [data pos]; lia).
  cbn [data pos]. change (Z.to_nat 0) with O. rewrite drop_0.
  change (Z.to_nat 4) with 4%nat.
  rewrite !byte_at_take by lia.
  fold (magic_ok d). fold (version_ok char_signed d versionByte).
  destruct (negb (magic_ok d)); [reflexivity|].
  destruct (negb (version_ok char_signed d versionByte)); [reflexivity|].
  destruct (Z.of_nat (length d) <? 16) eqn:H16; [reflexivity|].
  apply Z.ltb_ge in H16.
  unfold mbind at 1, M_bind at 1.
  rewrite ReadLE_u32_ok by (unfold file_size; cbn [data pos]; lia).
  cbn [data pos]. change (Z.to_nat (0 + 4)) with 4%nat.
  unfold mbind at 1, M_bind at 1.
  rewrite ReadLE_u32_ok by (unfold file_size; cbn [data pos]; lia).
  cbn [data pos]. change (Z.to_nat (0 + 4 + 4)) with 8%nat.
  fold (reserved_size d). fold (program_size d).
  unfold mbind at 1, M_bind at 1, skip at 1. cbn [data pos].
  destruct (negb (reserved_size d =? 0) && _); [reflexivity|].
  unfold mbind at 1, M_bind at 1, skip at 1. cbn [data pos].
  destruct (negb (program_size d =? 0) && _); [reflexivity|].
  unfold mret, M_ret.
  replace (0 + 4 + 4 + 4 + 4 + reserved_size d) with (16 + reserved_size d) by lia.
  reflexivity.
Qed.

End Validate.

(** ** Searching for a byte pattern *)

Lemma starts_with_length pat l : starts_with pat l = true → (length pat ≤ length l)%nat.
Proof.
  revert l. induction pat as [|p pat IH]; intros [|x l] H; simpl in *; try lia.
  destruct (decide (p = x)); [|discriminate]. apply IH in H. lia.
Qed.

Lemma starts_with_app pat rest : starts_with pat (pat ++ rest) = true.
Proof.
  induction pat as [|p pat IH]; simpl; [reflexivity|].
  destruct (decide (p = p)); [exact IH|congruence].
Qed.

Lemma starts_with_prefix pat l : starts_with pat l = true → l = pat ++ drop (length pat) l.
Proof.
  revert l. induction pat as [|p pat IH]; intros [|x l] H; simpl in *; try reflexivity.
  - discriminate.
  - destruct (decide (p = x)) as [->|]; [|discriminate].
    f_equal. apply IH. exact H.
Qed.

Lemma search_from_first pat l base (k : nat) :
  starts_with pat (drop k l) = true →
  (∀ j : nat, (j < k)%nat → starts_with pat (drop j l) = false) →
  search_from pat l base = Some (base + Z.of_nat k).
Proof.
  revert l base. induction k as [|k IH]; intros l base Hk Hmin.
  - rewrite drop_0 in Hk. destruct l; simpl; rewrite Hk; f_equal; lia.
  - assert (H0 : starts_with pat l = false) by (rewrite <- (drop_0 l); apply Hmin; lia).
    destruct l as [|x l].
    + simpl in Hk. congruence.
    + cbn [search_from]. rewrite H0. rewrite (IH l (base + 1)).
      * f_equal. lia.
      * exact Hk.
      * intros j Hj. apply (Hmin (S j)). lia.
Qed.

Lemma search_from_Some pat l base k :
  search_from pat l base = Some k →
  ∃ n : nat, k = base + Z.of_nat n ∧ starts_with pat (drop n l) = true
             ∧ ∀ j : nat, (j < n)%nat → starts_with pat (drop j l) = false.
Proof.
  revert base. induction l as [|x l IH]; intros base H.
  - simpl in H. destruct (starts_with pat []) eqn:E; [|discriminate].
    injection H as <-. exists O. repeat split; [lia|exact E|intros; lia].
  - cbn [search_from] in H. destruct (starts_with pat (x :: l)) eqn:E.
    + injection H as <-. exists O. repeat split; [lia|exact E|intros; lia].
    + destruct (IH _ H) as (n & -> & Hn & Hmin).
      exists (S n). repeat split; [lia|exact Hn|].
      intros [|j] Hj; [exact E|]. apply Hmin. lia.
Qed.

Lemma search_from_None pat l base :
  search_from pat l base = None → ∀ j : nat, starts_with pat (drop j l) = false.
Proof.
  revert base. induction l as [|x l IH]; intros base H j.
  - simpl in H. rewrite drop_nil. destruct (starts_with pat []); [discriminate|reflexivity].
  - cbn [search_from] in H. destruct (starts_with pat (x :: l)) eqn:E; [discriminate|].
    destruct j as [|j]; [exact E|]. simpl. exact (IH _ H j).
Qed.

(** ** The tag-block parser *)

Lemma list_ascii_of_string_app (a b : string) :
  String.list_ascii_of_string (a +:+ b) =
  String.list_ascii_of_string a ++ String.list_ascii_of_string b.
Proof. induction a as [|c a IH]; simpl; [|rewrite IH]; reflexivity. Qed.

Section Tags.

Variable char_signed : bool.


Lemma ReadLE_u8_ok d p x :
  0 <= p → d !! Z.to_nat p = Some x →
  ReadLE_u8 (mkFile d p) = inr (x, mkFile d (p + 1)).
Proof.
  intros Hp Hx. unfold ReadLE_u8, mbind, M_bind.
  pose proof (lookup_lt_Some _ _ _ Hx) as Hlt.
  rewrite ReadLE_bytes_ok by (unfold file_size; cbn [data pos]; lia).
  cbn [data pos]. change (Z.to_nat 1) with 1%nat.
  rewrite (drop_S _ _ _ Hx). reflexivity.
Qed.

Lemma tag_loop_run n : ∀ st d p,
  0 <= p → p + Z.of_nat n <= Z.of_nat (length d) →
  tag_loop char_signed n st (mkFile d p) =
    inr (foldl (λ st b, tag_step char_signed (ascii_of_byte b) st) st
           (take n (drop (Z.to_nat p) d)),
         mkFile d (p + Z.of_nat n)).
Proof.
  induction n as [|n IH]; intros st d p Hp Hn.
  - simpl. unfold mret, M_ret. rewrite Z.add_0_r. reflexivity.
  - cbn [tag_loop]. unfold mbind, M_bind.
    destruct (lookup_lt_is_Some_2 d (Z.to_nat p)) as [x Hx]; [lia|].
    rewrite (ReadLE_u8_ok _ _ _ Hp Hx).
    rewrite IH by lia.
    rewrite (drop_S _ _ _ Hx). cbn [take foldl].
    replace (Z.to_nat (p + 1)) with (S (Z.to_nat p)) by lia.
    replace (p + 1 + Z.of_nat n) with (p + Z.of_nat (S n)) by lia.
    reflexivity.
Qed.

(** [GetTagsFromPSF] in one equation: validation, then the search from
    offset 0 over the whole buffer, then the fold over everything behind
    the first marker. *)
Lemma GetTagsFromPSF_run versionByte d p :
  GetTagsFromPSF char_signed versionByte (mkFile d p) =
    match CheckForValidPSF char_signed versionByte (mkFile d p) with
    | inl e => inl e
    | inr _ =>
        match search_from TagHeaderVector d 0 with
        | None => inr (TagList_empty, mkFile d (16 + reserved_size d))
        | Some k => inr (st_tags (parse_tags char_signed (drop (Z.to_nat (k + 5)) d)),
                         mkFile d (Z.of_nat (length d)))
        end
    end.
Proof.
  unfold GetTagsFromPSF. unfold mbind at 1, M_bind at 1.
  destruct (CheckForValidPSF char_signed versionByte (mkFile d p)) as [e|[[] f']] eqn:Hv;
    [reflexivity|].
  assert (f' = mkFile d (16 + reserved_size d)) as ->.
  { rewrite CheckForValidPSF_run in Hv. cbn zeta in Hv.
    repeat match type of Hv with
           | (if ?c then _ else _) = _ => destruct c; [discriminate|]
           end.
    congruence. }
  unfold mbind at 1, M_bind at 1, get_file at 1.
  unfold GetNextOffset. cbn [data]. change (Z.to_nat 0) with O. rewrite drop_0.
  destruct (search_from TagHeaderVector d 0) as [k|] eqn:Hs; [|reflexivity].
  destruct (search_from_Some _ _ _ _ Hs) as (n & -> & Hn & _).
  apply starts_with_length in Hn. rewrite length_drop in Hn.
  change (length TagHeaderVector) with 5%nat in Hn.
  unfold mbind at 1, M_bind at 1, set_pos at 1. cbn [data].
  unfold mbind at 1, M_bind at 1, get_file at 1.
  unfold file_size. cbn [data pos].
  unfold mbind, M_bind.
  rewrite tag_loop_run by lia.
  unfold mret, M_ret. unfold parse_tags.
  rewrite take_ge by (rewrite length_drop; lia).
  f_equal. f_equal. f_equal. lia.
Qed.

End Tags.

(** ** The separator never reaches a name or a value *)


Lemma no_equals_empty : no_equals "".
Proof. unfold no_equals. simpl. apply not_elem_of_nil. Qed.

Lemma no_equals_app a b : no_equals a → no_equals b → no_equals (a +:+ b).
Proof.
  unfold no_equals. intros Ha Hb. rewrite list_ascii_of_string_app.
  rewrite elem_of_app. tauto.
Qed.

Lemma no_equals_char c : c ≠ "="%char → no_equals (String c EmptyString).
Proof.
  unfold no_equals. simpl. intros Hc H. apply list_elem_of_singleton in H. congruence.
Qed.

Lemma no_equals_newline : no_equals newline.
Proof. apply no_equals_char. discriminate. Qed.

Section TrimFacts.

Variable char_signed : bool.

Lemma no_equals_LeftTrim s : no_equals s → no_equals (LeftTrimWhitespace char_signed s).
Proof.
  unfold no_equals, LeftTrimWhitespace. intros H Hin. apply H.
  rewrite String.list_ascii_of_string_of_list_ascii in Hin.
  exact (subseteq_drop _ _ _ Hin).
Qed.

Lemma no_equals_RightTrim s : no_equals s → no_equals (RightTrimWhitespace char_signed s).
Proof.
  unfold no_equals, RightTrimWhitespace. intros H Hin. apply H.
  rewrite String.list_ascii_of_string_of_list_ascii in Hin.
  exact (subseteq_take _ _ _ Hin).
Qed.

Lemma no_equals_Trim s : no_equals s → no_equals (TrimWhitespace char_signed s).
Proof. intros H. apply no_equals_LeftTrim, no_equals_RightTrim, H. Qed.


Lemma separator_free_init : separator_free (mkTagState TagList_empty "" "" true).
Proof.
  split; [|split]; try apply no_equals_empty. apply map_Forall_empty.
Qed.

Lemma tag_step_separator_free curr st :
  separator_free st → separator_free (tag_step char_signed curr st).
Proof.
  intros (Hn & Hv & Ht). unfold tag_step.
  destruct (decide (curr = "010"%char)) as [_|Hnl].
  - split; [|split]; try apply no_equals_empty. cbn [st_tags].
    destruct (negb (string_is_empty (st_name st)) && negb (string_is_empty (st_value st)));
      [|exact Ht].
    pose proof (no_equals_Trim _ Hn) as Hn'. pose proof (no_equals_Trim _ Hv) as Hv'.
    destruct (Exists (TrimWhitespace char_signed (st_name st)) (st_tags st)) eqn:Hex;
      cbn [TagList_set tags]; apply map_Forall_insert_2; try exact Ht; split; try assumption.
    unfold Exists in Hex. apply bool_decide_eq_true in Hex. destruct Hex as [old Hold].
    unfold TagList_get. rewrite Hold. cbn [default].
    apply no_equals_app; [exact (proj2 (Ht _ _ Hold))|].
    apply no_equals_app; [apply no_equals_newline|exact Hv'].
  - destruct (decide (curr = "="%char)) as [_|Heq]; [split; [|split]; assumption|].
    destruct (st_onName st); (split; [|split]); cbn [st_name st_value st_tags];
      try assumption; apply no_equals_app; try assumption; apply no_equals_char; exact Heq.
Qed.

Lemma parse_tags_separator_free bs : separator_free (parse_tags char_signed bs).
Proof.
  unfold parse_tags. generalize separator_free_init.
  generalize (mkTagState TagList_empty "" "" true).
  induction bs as [|b bs IH]; intros st Hst; [exact Hst|].
  cbn [foldl]. apply IH, tag_step_separator_free, Hst.
Qed.

(** A record whose raw name or raw value is empty leaves the dictionary
    as it was. *)
Lemma tag_step_drops_raw_empty st :
  st_name st = "" ∨ st_value st = "" →
  st_tags (tag_step char_signed "010"%char st) = st_tags st.
Proof.
  intros H. unfold tag_step. rewrite decide_True by reflexivity. cbn [st_tags].
  destruct H as [-> | ->]; cbn [string_is_empty negb andb]; [reflexivity|].
  rewrite andb_false_r. reflexivity.
Qed.

End TrimFacts.

(** ** CheckForValidPSF *)

(** A buffer shorter than four bytes is refused with the size error, whatever
    it holds. *)
Lemma CheckForValidPSF_short char_signed versionByte d p :
  (length d < 4)%nat →
  CheckForValidPSF char_signed versionByte (mkFile d p) = inl (range_error FileTooSmall).
Proof.
  intros H. rewrite CheckForValidPSF_run. cbn zeta.
  rewrite (proj2 (Z.ltb_lt _ _)) by lia. reflexivity.
Qed.

(** With four bytes or more, a wrong magic is the format error, also for a
    buffer below 16 bytes: the magic and the version are looked at before
    the 16-byte check. *)
Lemma CheckForValidPSF_bad_magic char_signed versionByte d p :
  (4 ≤ length d)%nat → magic_ok d = false →
  CheckForValidPSF char_signed versionByte (mkFile d p) = inl (runtime_error NotAPSFFile).
Proof.
  intros H Hm. rewrite CheckForValidPSF_run. cbn zeta.
  rewrite (proj2 (Z.ltb_ge _ _)) by lia. rewrite Hm. reflexivity.
Qed.

(** The exceptions of the function are the size error and the two format
    errors; the cursor itself never throws inside it. *)
Lemma CheckForValidPSF_error_kinds char_signed versionByte d p e :
  CheckForValidPSF char_signed versionByte (mkFile d p) = inl e →
  e = range_error FileTooSmall ∨ e = runtime_error NotAPSFFile
  ∨ e = runtime_error (VersionByteMismatch (byte_at d 3) versionByte).
Proof.
  rewrite CheckForValidPSF_run. cbn zeta. intros H.
  repeat match type of H with
         | (if ?c then _ else _) = _ => destruct c
         end;
    try discriminate; injection H as <-; tauto.
Qed.

(** When the sums do not leave 32 bits, an accepted buffer holds the header
    and both sections. *)
Lemma CheckForValidPSF_accepts char_signed versionByte d p f' :
  CheckForValidPSF char_signed versionByte (mkFile d p) = inr ((), f') →
  reserved_size d + program_size d + 16 < 2 ^ 32 →
  16 + reserved_size d + program_size d <= Z.of_nat (length d)
  ∧ magic_ok d = true ∧ version_ok char_signed d versionByte = true.
Proof.
  intros Hv Hfit. rewrite CheckForValidPSF_run in Hv. cbn zeta in Hv.
  pose proof (LE_decode_range (take 4 (drop 4 d))) as HR.
  pose proof (LE_decode_range (take 4 (drop 8 d))) as HC.
  fold (reserved_size d) in HR. fold (program_size d) in HC.
  destruct (Z.of_nat (length d) <? 4); [discriminate|].
  destruct (magic_ok d); [|discriminate].
  destruct (version_ok char_signed d versionByte); [|discriminate].
  destruct (Z.of_nat (length d) <? 16) eqn:H16; [discriminate|].
  apply Z.ltb_ge in H16. cbn [negb] in Hv.
  rewrite (wrap32_small (reserved_size d + 16)) in Hv by lia.
  rewrite (wrap32_small (reserved_size d + program_size d)) in Hv by lia.
  rewrite (wrap32_small (reserved_size d + program_size d + 16)) in Hv by lia.
  destruct (reserved_size d =? 0) eqn:ER; destruct (program_size d =? 0) eqn:EC;
    cbn [negb andb] in Hv;
    repeat match type of Hv with
           | (if ?c then _ else _) = _ => destruct c eqn:?; [discriminate|]
           end;
    repeat match goal with
           | H : (_ =? _) = true |- _ => apply Z.eqb_eq in H
           | H : (_ <? _) = false |- _ => apply Z.ltb_ge in H
           end;
    (split; [lia|split; reflexivity]).
Qed.

(** C3 (evaluation at the failing input): a 16-byte buffer whose header
    announces a reserved section of 0xFFFFFFF0 bytes passes the validation,
    although it is far shorter than 16 + R: the sum [reservedSize + 16] is
    taken in 32 bits and wraps to 0. *)
Theorem CheckForValidPSF_reserved_size_wraps :
  file_size (mkFile huge_reserved_buffer 0) = 16
  ∧ reserved_size huge_reserved_buffer = 4294967280
  ∧ file_size (mkFile huge_reserved_buffer 0) < 16 + reserved_size huge_reserved_buffer
  ∧ ∀ char_signed, ∃ f',
      CheckForValidPSF char_signed x25 (mkFile huge_reserved_buffer 0) = inr ((), f').
Proof.
  split; [reflexivity|]. split; [reflexivity|]. split; [reflexivity|].
  intros char_signed. exists (mkFile huge_reserved_buffer (16 + 4294967280)).
  destruct char_signed; vm_compute; reflexivity.
Qed.

(** ** GetTagsFromPSF *)

(** The marker search starts at offset 0 of the whole buffer; what follows
    the first marker, wherever it lies, is the tag block. *)
Lemma GetTagsFromPSF_at_first_marker char_signed versionByte pre rest p f' :
  let d := pre ++ TagHeaderVector ++ rest in
  CheckForValidPSF char_signed versionByte (mkFile d p) = inr ((), f') →
  (∀ j : nat, (j < length pre)%nat → starts_with TagHeaderVector (drop j d) = false) →
  GetNextOffset (mkFile d p) 0 TagHeaderVector = Some (Z.of_nat (length pre))
  ∧ GetTagsFromPSF char_signed versionByte (mkFile d p)
    = inr (st_tags (parse_tags char_signed rest), mkFile d (Z.of_nat (length d))).
Proof.
  intros d Hv Hfirst.
  assert (Hs : search_from TagHeaderVector d 0 = Some (0 + Z.of_nat (length pre))).
  { apply search_from_first; [|exact Hfirst].
    unfold d. rewrite drop_app_length. apply starts_with_app. }
  split.
  - unfold GetNextOffset. cbn [data]. change (Z.to_nat 0) with O. rewrite drop_0. exact Hs.
  - rewrite GetTagsFromPSF_run, Hv, Hs.
    replace (Z.to_nat (0 + Z.of_nat (length pre) + 5)) with (length pre + 5)%nat by lia.
    rewrite <- drop_drop. unfold d at 1. rewrite drop_app_length.
    change 5%nat with (length TagHeaderVector). rewrite drop_app_length. reflexivity.
Qed.

(** C9: for every valid buffer, the first occurrence of "[TAG]" counted from
    offset 0, wherever in the file it lies (no section boundary is
    consulted), starts the tag block, and every byte behind it is parsed as
    tag records. *)
Theorem GetTagsFromPSF_first_marker_anywhere char_signed versionByte pre rest p f' :
  let d := pre ++ TagHeaderVector ++ rest in
  CheckForValidPSF char_signed versionByte (mkFile d p) = inr ((), f') →
  (∀ j : nat, (j < length pre)%nat → starts_with TagHeaderVector (drop j d) = false) →
  GetNextOffset (mkFile d p) 0 TagHeaderVector = Some (Z.of_nat (length pre))
  ∧ ∃ f'', GetTagsFromPSF char_signed versionByte (mkFile d p)
           = inr (st_tags (parse_tags char_signed rest), f'').
Proof.
  intros d Hv Hfirst.
  destruct (GetTagsFromPSF_at_first_marker _ _ _ _ _ _ Hv Hfirst) as [Ho Ht].
  split; [exact Ho|]. eexists. exact Ht.
Qed.

Tactic Notation "first_marker_at" integer(n) :=
  let j := fresh "j" in let Hj := fresh "Hj" in
  intros j Hj; do n (destruct j as [|j]; [reflexivity|]); exfalso; cbn in Hj; lia.

(** The marker inside the reserved section wins over the tag block proper:
    the records are "x=y" and "[TAG]a=b". *)
Lemma GetTagsFromPSF_first_marker_anywhere_witness :
  GetNextOffset (mkFile marker_in_reserved_buffer 0) 0 TagHeaderVector = Some 16
  ∧ ∃ f'', GetTagsFromPSF true x25 (mkFile marker_in_reserved_buffer 0)
           = inr (st_tags (parse_tags true
                     (bytes_of_string (line "x=y" +:+ "[TAG]" +:+ line "a=b"))), f'').
Proof.
  apply (GetTagsFromPSF_first_marker_anywhere true x25 (psf_header x25 9 0 0)
           (bytes_of_string (line "x=y" +:+ "[TAG]" +:+ line "a=b")) 0
           (mkFile marker_in_reserved_buffer 25)).
  - vm_compute. reflexivity.
  - first_marker_at 16.
Defined.

Lemma marker_in_reserved_parse char_signed :
  tags (st_tags (parse_tags char_signed
                   (bytes_of_string (line "x=y" +:+ "[TAG]" +:+ line "a=b"))))
  = {[ "x" := "y"; "[TAG]a" := "b" ]}.
Proof. destruct char_signed; vm_compute; reflexivity. Qed.

(** C6: in a valid buffer whose first marker is followed by the records
    "A=1" and "A=2", each ended by 0x0A, key A maps to the two values joined
    by a newline, and is the only key. *)
Theorem GetTagsFromPSF_merges_duplicate_key char_signed versionByte pre p f' :
  let d := pre ++ TagHeaderVector ++ bytes_of_string (line "A=1" +:+ line "A=2") in
  CheckForValidPSF char_signed versionByte (mkFile d p) = inr ((), f') →
  (∀ j : nat, (j < length pre)%nat → starts_with TagHeaderVector (drop j d) = false) →
  ∃ t f'', GetTagsFromPSF char_signed versionByte (mkFile d p) = inr (t, f'')
           ∧ tags t !! "A" = Some ("1" +:+ newline +:+ "2")
           ∧ tags t !! "A" ≠ Some "2"
           ∧ tags t = {[ "A" := "1" +:+ newline +:+ "2" ]}.
Proof.
  intros d Hv Hfirst.
  destruct (GetTagsFromPSF_at_first_marker _ _ _ _ _ _ Hv Hfirst) as [_ Ht].
  eexists _, _. split; [exact Ht|].
  destruct char_signed; vm_compute; (split; [reflexivity|split; [discriminate|reflexivity]]).
Qed.

Lemma GetTagsFromPSF_merges_duplicate_key_witness :
  ∃ t f'', GetTagsFromPSF true x25
             (mkFile (psf_header x25 0 0 0 ++ TagHeaderVector
                        ++ bytes_of_string (line "A=1" +:+ line "A=2")) 0) = inr (t, f'')
           ∧ tags t !! "A" = Some ("1" +:+ newline +:+ "2")
           ∧ tags t !! "A" ≠ Some "2"
           ∧ tags t = {[ "A" := "1" +:+ newline +:+ "2" ]}.
Proof.
  apply (GetTagsFromPSF_merges_duplicate_key true x25 (psf_header x25 0 0 0) 0
           (mkFile (psf_header x25 0 0 0 ++ TagHeaderVector
                      ++ bytes_of_string (line "A=1" +:+ line "A=2")) 16)).
  - vm_compute. reflexivity.
  - first_marker_at 16.
Defined.

(** C2 (evaluation at the failing input): the emptiness test of the loop
    looks at the raw name and value, before they are trimmed.  A record
    whose name is one blank is therefore kept, under the empty key; a
    record whose value is one blank is kept with the empty value. *)
Theorem GetTagsFromPSF_keeps_blank_name char_signed p :
  TrimWhitespace char_signed " " = ""
  ∧ GetTagsFromPSF char_signed x25 (mkFile blank_name_buffer p)
    = inr (mkTags {[ "" := "x" ]} [""], mkFile blank_name_buffer 25)
  ∧ GetTagsFromPSF char_signed x25 (mkFile blank_value_buffer p)
    = inr (mkTags {[ "q" := "" ]} ["q"], mkFile blank_value_buffer 25).
Proof.
  rewrite !GetTagsFromPSF_run.
  destruct char_signed; vm_compute; repeat split; reflexivity.
Qed.

(** C10: whatever the buffer, no name and no value of the returned
    dictionary holds an '=': each one read is taken as a separator and
    appended nowhere. *)
Theorem GetTagsFromPSF_drops_every_separator char_signed versionByte f t f' name value :
  GetTagsFromPSF char_signed versionByte f = inr (t, f') →
  tags t !! name = Some value →
  no_equals name ∧ no_equals value.
Proof.
  destruct f as [d p]. rewrite GetTagsFromPSF_run.
  destruct (CheckForValidPSF char_signed versionByte (mkFile d p)) as [e|_]; [discriminate|].
  destruct (search_from TagHeaderVector d 0) as [k|]; intros Heq Hlook.
  - injection Heq as <- _.
    destruct (parse_tags_separator_free char_signed (drop (Z.to_nat (k + 5)) d))
      as (_ & _ & Hall).
    exact (Hall _ _ Hlook).
  - injection Heq as <- _. cbn in Hlook. rewrite lookup_empty in Hlook. discriminate.
Qed.


(** The record "a=b=c" written by [MakeNCSF] comes back as name "a" with
    value "bc": the value "b=c" does not survive the round trip. *)
Lemma MakeNCSF_GetTagsFromPSF_loses_separator char_signed p :
  GetTagsFromPSF char_signed x25 (mkFile two_separators_buffer p)
  = inr (mkTags {[ "a" := "bc" ]} ["a"], mkFile two_separators_buffer 27).
Proof.
  rewrite GetTagsFromPSF_run. destruct char_signed; vm_compute; reflexivity.
Qed.

Lemma GetTagsFromPSF_drops_every_separator_witness :
  no_equals "a" ∧ no_equals "bc".
Proof.
  apply (GetTagsFromPSF_drops_every_separator true x25
           (mkFile two_separators_buffer 0)
           (mkTags {[ "a" := "bc" ]} ["a"]) (mkFile two_separators_buffer 27) "a" "bc").
  - vm_compute. reflexivity.
  - vm_compute. reflexivity.
Defined.

(** ** MakeNCSF followed by GetProgramSectionFromPSF *)

Lemma compressBound_pos n : 0 <= n → 0 < compressBound n.
Proof.
  intros Hn. unfold compressBound.
  pose proof (Z.div_pos n (2 ^ 12) Hn ltac:(lia)).
  pose proof (Z.div_pos n (2 ^ 14) Hn ltac:(lia)).
  pose proof (Z.div_pos n (2 ^ 25) Hn ltac:(lia)).
  lia.
Qed.


Lemma foldl_write_tag o tagLines : foldl write_tag o tagLines = o ++ tag_lines tagLines.
Proof.
  revert o. induction tagLines as [|s ts IH]; intros o.
  - unfold tag_lines. simpl. rewrite app_nil_r. reflexivity.
  - cbn [foldl]. rewrite IH. unfold write_tag, WriteLE_u8, WriteLE_string, tag_lines.
    cbn [map concat]. rewrite <- !app_assoc. reflexivity.
Qed.

Lemma take4_drop4 (a b rest : list byte) :
  length a = 4%nat → length b = 4%nat → take 4 (drop 4 (a ++ b ++ rest)) = b.
Proof.
  intros Ha Hb. rewrite drop_app_length' by (symmetry; exact Ha).
  apply take_app_length'. symmetry. exact Hb.
Qed.

Lemma take4_drop8 (a b c rest : list byte) :
  length a = 4%nat → length b = 4%nat → length c = 4%nat →
  take 4 (drop 8 (a ++ b ++ c ++ rest)) = c.
Proof.
  intros Ha Hb Hc. change 8%nat with (4 + 4)%nat. rewrite <- drop_drop.
  rewrite drop_app_length' by (symmetry; exact Ha). apply take4_drop4; assumption.
Qed.

Section RoundTrip.

Variable char_signed : bool.
Variable compress2 : list byte → list byte.
Variable inflate : list byte → list byte.
Variable crc32 : list byte → Z.

(** What the codec relies on from zlib: a deflate stream is never empty,
    and inflating the stream of a buffer gives the buffer back. *)
Hypothesis compress2_nonempty : ∀ p, p ≠ [] → compress2 p ≠ [].
Hypothesis inflate_compress2 : ∀ p, p ≠ [] → inflate (compress2 p) = p.


(** The sections in the order [MakeNCSF] writes them. *)
Lemma MakeNCSF_bytes_layout reserved program tagLines :
  MakeNCSF_bytes compress2 crc32 reserved program tagLines =
    psf_header x25 (Z.of_nat (length reserved)) (Z.of_nat (length (compressed compress2 program)))
      (if decide (program = []) then 0 else crc32 (compress2 program))
    ++ reserved ++ compressed compress2 program ++ tag_block tagLines.
Proof.
  unfold MakeNCSF_bytes, compressed, tag_block. cbn zeta.
  destruct (decide (program = [])) as [Hp|Hp].
  - change (0 =? 0) with true. cbn iota.
    rewrite (decide_True (P := ([] = [])) _ _ eq_refl) by reflexivity.
    destruct (decide (reserved = [])) as [->|Hr];
      destruct (decide (tagLines = [])) as [Ht|Ht];
      rewrite ?foldl_write_tag;
      unfold psf_header, WriteLE_bytes, WriteLE_u32, WriteLE_u8, WriteLE_string;
      cbn [app length Z.of_nat]; rewrite ?app_nil_r, <- ?app_assoc; reflexivity.
  - pose proof (compressBound_pos (Z.of_nat (length program)) ltac:(lia)) as Hb.
    rewrite (proj2 (Z.eqb_neq _ 0)) by lia.
    pose proof (compress2_nonempty _ Hp) as Hc.
    assert (Z.of_nat (length (compress2 program)) ≠ 0) as Hl
      by (destruct (compress2 program); [congruence|simpl; lia]).
    rewrite (proj2 (Z.eqb_neq _ 0) Hl).
    rewrite (decide_False (P := (compress2 program = [])) _ _ Hc) by exact Hc.
    destruct (decide (reserved = [])) as [->|Hr];
      destruct (decide (tagLines = [])) as [Ht|Ht];
      rewrite ?foldl_write_tag;
      unfold psf_header, WriteLE_bytes, WriteLE_u32, WriteLE_u8, WriteLE_string;
      cbn [app length Z.of_nat]; rewrite ?app_nil_r, <- ?app_assoc; reflexivity.
Qed.

(** [GetProgramSectionFromPSF] behind a successful validation. *)
Lemma GetProgramSectionFromPSF_run versionByte hs off add d p f' :
  CheckForValidPSF char_signed versionByte (mkFile d p) = inr ((), f') →
  GetProgramSectionFromPSF char_signed inflate versionByte hs off add (mkFile d p) =
    if program_size d =? 0 then inr (Some [], mkFile d 16)
    else
      match ReadLE_bytes (program_size d) (mkFile d (16 + reserved_size d)) with
      | inl e => inl e
      | inr (comp, f2) =>
          let header := uncompress inflate (replicate (Z.to_nat hs) x00) comp in
          match ReadLE_u32_at header off with
          | None => inr (None, f2)
          | Some sz =>
              inr (Some (uncompress inflate
                           (resize (Z.to_nat (if add then sz + hs else sz)) x00 header)
                           comp), f2)
          end
      end.
Proof.
  intros Hv.
  assert (H16 : 16 <= Z.of_nat (length d)).
  { rewrite CheckForValidPSF_run in Hv. cbn zeta in Hv.
    destruct (Z.of_nat (length d) <? 4); [discriminate|].
    destruct (negb (magic_ok d)); [discriminate|].
    destruct (negb (version_ok char_signed d versionByte)); [discriminate|].
    destruct (Z.of_nat (length d) <? 16) eqn:E; [discriminate|].
    apply Z.ltb_ge in E. exact E. }
  unfold GetProgramSectionFromPSF.
  unfold mbind at 1, M_bind at 1. rewrite Hv.
  assert (data f' = d) as Hd.
  { rewrite CheckForValidPSF_run in Hv. cbn zeta in Hv.
    repeat match type of Hv with
           | (if ?c then _ else _) = _ => destruct c; [discriminate|]
           end.
    injection Hv as <-. reflexivity. }
  unfold mbind at 1, M_bind at 1, set_pos at 1. rewrite Hd.
  unfold mbind at 1, M_bind at 1.
  rewrite ReadLE_u32_ok by (unfold file_size; cbn [data pos]; lia).
  cbn [data pos]. change (Z.to_nat 4) with 4%nat. fold (reserved_size d).
  unfold mbind at 1, M_bind at 1.
  rewrite ReadLE_u32_ok by (unfold file_size; cbn [data pos]; lia).
  cbn [data pos]. change (Z.to_nat (4 + 4)) with 8%nat. fold (program_size d).
  unfold mbind at 1, M_bind at 1, skip at 1. cbn [data pos].
  destruct (program_size d =? 0); [reflexivity|].
  unfold mbind at 1, M_bind at 1.
  assert ((if negb (reserved_size d =? 0) then skip (reserved_size d) else mret ())
            (mkFile d (4 + 4 + 4 + 4)) = inr ((), mkFile d (16 + reserved_size d))) as ->.
  { destruct (reserved_size d =? 0) eqn:E; cbn [negb].
    - apply Z.eqb_eq in E. rewrite E. reflexivity.
    - reflexivity. }
  unfold mbind at 1, M_bind at 1.
  destruct (ReadLE_bytes (program_size d) (mkFile d (16 + reserved_size d)))
    as [e|[comp f2]]; [reflexivity|].
  cbn zeta.
  destruct (ReadLE_u32_at _ off); reflexivity.
Qed.

(** The buffer written for the given sections passes the validation with
    the version byte 0x25. *)
Lemma MakeNCSF_bytes_fields reserved program tagLines :
  let d := MakeNCSF_bytes compress2 crc32 reserved program tagLines in
  16 + Z.of_nat (length reserved) + Z.of_nat (length (compressed compress2 program)) < 2 ^ 32 →
  Z.of_nat (length d) =
    16 + Z.of_nat (length reserved) + Z.of_nat (length (compressed compress2 program))
    + Z.of_nat (length (tag_block tagLines))
  ∧ magic_ok d = true ∧ version_ok char_signed d x25 = true
  ∧ reserved_size d = Z.of_nat (length reserved)
  ∧ program_size d = Z.of_nat (length (compressed compress2 program))
  ∧ drop 16 d = reserved ++ compressed compress2 program ++ tag_block tagLines.
Proof.
  intros d Hfit. unfold d. rewrite MakeNCSF_bytes_layout.
  unfold psf_header. rewrite <- !app_assoc.
  split; [|split; [|split; [|split; [|split]]]].
  - rewrite !length_app, !LE_encode_length.
    change (length (bytes_of_string "PSF")) with 3%nat. cbn [length]. lia.
  - reflexivity.
  - destruct char_signed; reflexivity.
  - unfold reserved_size.
    change (bytes_of_string "PSF" ++ [x25] ++ ?r) with
      ([x50; x53; x46; x25] ++ r).
    rewrite take4_drop4 by (rewrite ?LE_encode_length; reflexivity).
    rewrite LE_decode_encode_u32. apply wrap32_small. lia.
  - unfold program_size.
    change (bytes_of_string "PSF" ++ [x25] ++ ?r) with
      ([x50; x53; x46; x25] ++ r).
    rewrite take4_drop8 by (rewrite ?LE_encode_length; reflexivity).
    rewrite LE_decode_encode_u32. apply wrap32_small. lia.
  - change (bytes_of_string "PSF" ++ [x25] ++ ?r) with
      ([x50; x53; x46; x25] ++ r).
    change 16%nat with (4 + (4 + (4 + 4)))%nat.
    rewrite <- !drop_drop.
    rewrite (drop_app_length' [x50; x53; x46; x25]) by reflexivity.
    rewrite drop_app_length' by (rewrite LE_encode_length; reflexivity).
    rewrite drop_app_length' by (rewrite LE_encode_length; reflexivity).
    rewrite drop_app_length' by (rewrite LE_encode_length; reflexivity).
    reflexivity.
Qed.


(** C4 (amended): [MakeNCSF] always writes the version byte 0x25.  When
    the section sizes fit the 32-bit length fields, the file it writes
    under any name passes [CheckForValidPSF] with 0x25, and
    [GetProgramSectionFromPSF] with 0x25 returns a program section; that
    section is the original program exactly when the program is empty, or
    announces its own length in the 32-bit field at [programSizeOffset] of
    its header (the header size added to it when [addHeaderSize] is set). *)
Theorem MakeNCSF_GetProgramSectionFromPSF_roundtrip
    filename reserved program tagLines (fs : filesystem) hs off (add : bool) p :
  16 + Z.of_nat (length reserved) + Z.of_nat (length (compressed compress2 program)) < 2 ^ 32 →
  program = [] ∨ (0 <= off ∧ off + 4 <= hs) →
  ∃ bytes,
    MakeNCSF compress2 crc32 filename reserved program tagLines fs !! filename = Some bytes
    ∧ CheckForValidPSF char_signed x25 (mkFile bytes p)
      = inr ((), mkFile bytes (16 + Z.of_nat (length reserved)))
    ∧ ∃ r f', GetProgramSectionFromPSF char_signed inflate x25 hs off add (mkFile bytes p)
              = inr (Some r, f')
              ∧ (r = program ↔
                 program = [] ∨ embedded_size hs off add program = Z.of_nat (length program)).
Proof.
  intros Hfit Hprog.
  exists (MakeNCSF_bytes compress2 crc32 reserved program tagLines).
  split; [apply lookup_insert_eq|].
  destruct (MakeNCSF_bytes_fields reserved program tagLines Hfit)
    as (Hlen & Hmagic & Hver & HR & HC & Hbody).
  set (d := MakeNCSF_bytes compress2 crc32 reserved program tagLines) in *.
  assert (Hvalid : CheckForValidPSF char_signed x25 (mkFile d p)
                   = inr ((), mkFile d (16 + Z.of_nat (length reserved)))).
  { rewrite CheckForValidPSF_run. cbn zeta.
    rewrite Hmagic, Hver, HR, HC. cbn [negb].
    rewrite (proj2 (Z.ltb_ge _ 4)) by lia.
    rewrite (proj2 (Z.ltb_ge _ 16)) by lia.
    rewrite (wrap32_small (Z.of_nat (length reserved) + 16)) by lia.
    rewrite (wrap32_small (Z.of_nat (length reserved) + _)) by lia.
    rewrite (wrap32_small (Z.of_nat (length reserved) + _ + 16)) by lia.
    rewrite (proj2 (Z.ltb_ge _ (Z.of_nat (length reserved) + 16))) by lia.
    rewrite andb_false_r.
    rewrite (proj2 (Z.ltb_ge _ (Z.of_nat (length reserved) + _ + 16))) by lia.
    rewrite andb_false_r. reflexivity. }
  split; [exact Hvalid|].
  rewrite (GetProgramSectionFromPSF_run _ _ _ _ _ _ _ Hvalid). rewrite HC, HR.
  unfold compressed in *.
  destruct (decide (program = [])) as [->|Hne].
  { exists [], (mkFile d 16). split; [reflexivity|]. split; [intros _; left|]; reflexivity. }
  destruct Hprog as [?|(Hoff & Hoff4)]; [contradiction|].
  pose proof (compress2_nonempty _ Hne) as Hc.
  assert (Z.of_nat (length (compress2 program)) ≠ 0) as Hl
    by (destruct (compress2 program); [congruence|simpl; lia]).
  rewrite (proj2 (Z.eqb_neq _ 0) Hl).
  rewrite ReadLE_bytes_ok by (unfold file_size; cbn [data pos]; lia).
  cbn [data pos].
  replace (Z.to_nat (16 + Z.of_nat (length reserved)))
    with (16 + length reserved)%nat by lia.
  rewrite <- drop_drop, Hbody, drop_app_length, Nat2Z.id, take_app_length.
  cbn zeta. unfold uncompress. rewrite (inflate_compress2 _ Hne).
  rewrite length_replicate, drop_replicate. fold (program_header hs program).
  assert (Hhl : length (program_header hs program) = Z.to_nat hs).
  { unfold program_header. rewrite length_app, length_take, length_replicate. lia. }
  assert (ReadLE_u32_at (program_header hs program) off
          = Some (LE_decode (take 4 (drop (Z.to_nat off) (program_header hs program)))))
    as ->.
  { unfold ReadLE_u32_at. rewrite Hhl.
    rewrite (proj2 (Z.leb_le 0 off) Hoff).
    rewrite (proj2 (Z.leb_le (off + 4) _)) by lia. reflexivity. }
  pose proof (LE_decode_range (take 4 (drop (Z.to_nat off) (program_header hs program))))
    as [Hfield _].
  set (sz := if add
             then LE_decode (take 4 (drop (Z.to_nat off) (program_header hs program))) + hs
             else LE_decode (take 4 (drop (Z.to_nat off) (program_header hs program)))).
  assert (Hsz : sz = embedded_size hs off add program)
    by (unfold sz, embedded_size; destruct add; lia).
  assert (Hsz0 : 0 <= sz) by (unfold sz; destruct add; lia).
  eexists _, _. split; [reflexivity|].
  rewrite length_resize. rewrite <- Hsz. split.
  - intros Hr. right. apply (f_equal length) in Hr.
    rewrite length_app, length_take, length_drop, length_resize in Hr. lia.
  - intros [?|Heq]; [contradiction|].
    replace (Z.to_nat sz) with (length program) by lia.
    rewrite take_ge by lia.
    rewrite drop_ge by (rewrite length_resize; lia).
    apply app_nil_r.
Qed.

End RoundTrip.


Lemma MakeNCSF_GetProgramSectionFromPSF_roundtrip_witness :
  ∃ bytes,
    MakeNCSF framed (λ _, 0) "out.ncsf" [xaa] sized_program ["a=b"] ∅ !! "out.ncsf"
    = Some bytes
    ∧ CheckForValidPSF true x25 (mkFile bytes 0) = inr ((), mkFile bytes (16 + 1))
    ∧ ∃ r f', GetProgramSectionFromPSF true unframed x25 4 0 false (mkFile bytes 0)
              = inr (Some r, f')
              ∧ (r = sized_program ↔
                 sized_program = [] ∨ embedded_size 4 0 false sized_program = 4).
Proof.
  apply (MakeNCSF_GetProgramSectionFromPSF_roundtrip true framed unframed (λ _, 0)).
  - intros p _. discriminate.
  - intros p _. reflexivity.
  - vm_compute. reflexivity.
  - right. split; [lia|lia].
Defined.

(** C4 (counterexample): with the version byte 0x26 on the reading side the
    validation refuses what [MakeNCSF] wrote, whose version byte is always
    0x25; and with 0x25, the one-byte program 05 comes back as five bytes,
    its first byte being read as the size of the whole. *)
Lemma MakeNCSF_GetProgramSectionFromPSF_counterexample :
  (∀ f', GetProgramSectionFromPSF true unframed x26 4 0 false
           (mkFile (MakeNCSF_bytes framed (λ _, 0) [] [] []) 0) ≠ inr (Some [], f'))
  ∧ GetProgramSectionFromPSF true unframed x26 4 0 false
      (mkFile (MakeNCSF_bytes framed (λ _, 0) [] [] []) 0)
    = inl (runtime_error (VersionByteMismatch x25 x26))
  ∧ (∀ f', GetProgramSectionFromPSF true unframed x25 4 0 false
             (mkFile (MakeNCSF_bytes framed (λ _, 0) [] [x05] []) 0) ≠ inr (Some [x05], f'))
  ∧ GetProgramSectionFromPSF true unframed x25 4 0 false
      (mkFile (MakeNCSF_bytes framed (λ _, 0) [] [x05] []) 0)
    = inr (Some [x05; x00; x00; x00; x00],
           mkFile (MakeNCSF_bytes framed (λ _, 0) [] [x05] []) 18).
Proof.
  assert (H1 : GetProgramSectionFromPSF true unframed x26 4 0 false
                 (mkFile (MakeNCSF_bytes framed (λ _, 0) [] [] []) 0)
               = inl (runtime_error (VersionByteMismatch x25 x26)))
    by (vm_compute; reflexivity).
  assert (H2 : GetProgramSectionFromPSF true unframed x25 4 0 false
                 (mkFile (MakeNCSF_bytes framed (λ _, 0) [] [x05] []) 0)
               = inr (Some [x05; x00; x00; x00; x00],
                      mkFile (MakeNCSF_bytes framed (λ _, 0) [] [x05] []) 18))
    by (vm_compute; reflexivity).
  split; [intros f'; rewrite H1; discriminate|].
  split; [exact H1|].
  split; [intros f'; rewrite H2; discriminate|exact H2].
Qed.

(** ** The duration engine *)

Lemma static_cast_int_nonneg q : (0 <= q)%Q → static_cast_int q = Qfloor q.
Proof.
  destruct q as [n d]. unfold Qle, static_cast_int, Qfloor. simpl. intros H.
  apply Z.quot_div_nonneg; lia.
Qed.

(** Seen through [static_cast<int>], every elapsed time above -1 is
    determined. *)
Lemma static_cast_int_above_minus_one q : (-1 < q)%Q → 0 <= static_cast_int q.
Proof.
  destruct q as [n d]. unfold Qlt, static_cast_int. simpl. intros H.
  destruct (Z.le_gt_cases 0 n) as [Hn|Hn].
  - apply Z.quot_pos; lia.
  - rewrite <- (Z.opp_involutive n), Z.quot_opp_l by lia.
    rewrite Z.quot_small by lia. lia.
Qed.

Lemma undetermined_above_minus_one t : (-1 < time t)%Q → undetermined t = false.
Proof.
  intros H. unfold undetermined. apply static_cast_int_above_minus_one in H.
  apply Z.eqb_neq. lia.
Qed.

(** The verdict of a timed-out probe is recognised as undetermined. *)
Lemma undetermined_timeout : undetermined (mkTime (-1) LOOP) = true.
Proof. reflexivity. Qed.

(** Rounding up after the replacement of a zero [static_cast<int>] by 1. *)
Lemma ceiling_at_least_one q :
  (-1 < q)%Q →
  Qceiling (if static_cast_int q =? 0 then 1%Q else q) = Z.max 1 (Qceiling q).
Proof.
  intros H. destruct q as [n d]. unfold Qlt in H. simpl in H.
  unfold static_cast_int, Qceiling, Qfloor, Qopp. cbn [Qnum Qden].
  destruct (Z.quot n (Z.pos d) =? 0) eqn:E.
  - apply Z.eqb_eq in E. apply Z.quot_small_iff in E; [|lia].
    cbn [Qnum Qden]. change (- (- (1) / 1)) with 1.
    assert (Hc : - (- n / Z.pos d) <= 1).
    { assert (-1 <= - n / Z.pos d); [|lia].
      apply Z.div_le_lower_bound; lia. }
    lia.
  - apply Z.eqb_neq in E. cbn [Qnum Qden].
    assert (Hn : Z.pos d <= n).
    { destruct (Z.lt_ge_cases n (Z.pos d)) as [Hlt|]; [|assumption].
      exfalso. apply E. apply Z.quot_small_iff; lia. }
    assert (1 <= - (- n / Z.pos d)); [|lia].
    assert (- n / Z.pos d <= -1); [|lia].
    apply Z.div_le_upper_bound; lia.
Qed.

Section EngineFacts.

Context {SBNK SWAR : Type}.
Variable new_TimerPlayer : @TimerPlayer SBNK SWAR.
Variable interpreter : @TimerPlayer SBNK SWAR → Run.
Variable SecondsToString : Q → string.
Variable stringify : Z → string.

(** The poll loop stops at the first poll that sees the flag cleared. *)
Lemma poll_bounds flag r : ∀ i, (i ≤ poll flag r i ≤ i + r)%nat.
Proof.
  induction r as [|r IH]; intros i; cbn [poll]; [lia|].
  destruct (flag i); [|lia]. specialize (IH (S i)). lia.
Qed.

Lemma poll_exhausted flag r : ∀ i,
  poll flag r i = (i + r)%nat ↔ ∀ j, (i ≤ j < i + r)%nat → flag j = true.
Proof.
  induction r as [|r IH]; intros i; cbn [poll].
  - split; [intros _ j Hj; lia|intros _; lia].
  - destruct (flag i) eqn:E.
    + replace (i + S r)%nat with (S i + r)%nat by lia. rewrite (IH (S i)).
      split; intros H j Hj.
      * destruct (decide (j = i)) as [->|]; [exact E|]. apply H. lia.
      * apply H. lia.
    + split; [lia|]. intros H. rewrite H in E by lia. discriminate.
Qed.

Lemma poll_stops flag r : ∀ i,
  (poll flag r i < i + r)%nat → flag (poll flag r i) = false.
Proof.
  induction r as [|r IH]; intros i; cbn [poll]; [lia|].
  destruct (flag i) eqn:E; [|intros _; exact E].
  intros H. apply IH. lia.
Qed.

(** A probe is undetermined exactly when every poll up to the bound saw
    the interpreter still working; otherwise the interpreter's own verdict
    is returned. *)
Lemma GetTime_player_cases player loopCount numberOfLoops :
  let thread := interpreter (set_loops numberOfLoops player) in
  ((∀ j, (j < loopCount)%nat → doLength_at thread j = true)
   ∧ GetTime_player interpreter player loopCount numberOfLoops = mkTime (-1) LOOP)
  ∨ ((∃ j, (j < loopCount)%nat ∧ doLength_at thread j = false)
     ∧ GetTime_player interpreter player loopCount numberOfLoops
       = run_length thread).
Proof.
  intros thread. unfold GetTime_player. fold thread.
  pose proof (poll_exhausted (doLength_at thread) loopCount O) as Hex.
  pose proof (poll_bounds (doLength_at thread) loopCount O) as Hb.
  destruct (decide (poll (doLength_at thread) loopCount 0 = loopCount)) as [Heq|Hne].
  - left. split; [|reflexivity]. intros j Hj. apply Hex; [exact Heq|lia].
  - right. split; [|reflexivity].
    exists (poll (doLength_at thread) loopCount 0). split; [lia|].
    apply poll_stops. lia.
Qed.


Lemma bind_swars_total (sdat : @SDAT SBNK SWAR) sbnkInfo n :
  ∀ i (p : @TimerPlayer SBNK SWAR),
  (i + n ≤ 4)%nat →
  (∀ i : nat, (i < 4)%nat →
     ∃ w, waveArc sbnkInfo !! i = Some w
          ∧ (w ≠ 65535 → is_Some (WAVEARCrecord sdat !! Z.to_nat w))) →
  ∃ p', bind_swars sdat sbnkInfo i n p = Some p' ∧ p_doNotes p' = p_doNotes p
        ∧ p_maxSeconds p' = p_maxSeconds p.
Proof.
  induction n as [|n IH]; intros i p Hi Hres; cbn [bind_swars].
  - exists p. repeat split.
  - destruct (Hres i ltac:(lia)) as (w & Hw & Hwa). rewrite Hw. cbn [mbind option_bind].
    destruct (w =? 65535) eqn:E; cbn [negb].
    + apply IH; [lia|exact Hres].
    + apply Z.eqb_neq in E. destruct (Hwa E) as [e He]. rewrite He. cbn [mbind option_bind].
      destruct (IH (S i) (set_swar i (swar e) p) ltac:(lia) Hres) as (p' & Hp' & Hn & Hm).
      exists p'. repeat split; assumption.
Qed.

(** C5: the second pass runs exactly when the first one gave a determined
    verdict of type END; its poll bound is 40, above the 20 of the first;
    and when it comes back undetermined the verdict of the first pass is
    the final one. *)
Theorem GetTime_passes_second_pass sdat sseq numberOfLoops :
  archive_resolved sdat sseq →
  ∃ player1 final gotLength passes,
    GetTime_passes new_TimerPlayer interpreter sdat sseq numberOfLoops
    = Some (final, gotLength, passes)
    ∧ passes !! 0%nat = Some (player1, 20%nat)
    ∧ let first := GetTime_player interpreter player1 20 numberOfLoops in
      ((∃ player2, passes = [(player1, 20%nat); (player2, 40%nat)])
         ↔ undetermined first = false ∧ type first = END)
      ∧ (passes = [(player1, 20%nat)] → final = first ∧ gotLength = false)
      ∧ ∀ player2 bound2, passes !! 1%nat = Some (player2, bound2) →
          (20 < bound2)%nat ∧ bound2 = 40%nat
          ∧ p_doNotes player2 = true
          ∧ let second := GetTime_player interpreter player2 bound2 numberOfLoops in
            final = (if undetermined second then first else second)
            ∧ gotLength = negb (undetermined second).
Proof.
  intros (info & Hinfo & sbnkInfo & Hbank & Hwave).
  unfold GetTime_passes. rewrite Hinfo. cbn [mbind option_bind].
  set (player1 := set_maxSeconds 6000 (Setup sseq (seq_origFilename info) new_TimerPlayer)).
  set (first := GetTime_player interpreter player1 20 numberOfLoops).
  exists player1.
  destruct (negb (static_cast_int (time first) =? -1) && bool_decide (type first = END))
    eqn:Hc.
  - apply andb_true_iff in Hc. destruct Hc as [Hdet Hend].
    apply negb_true_iff in Hdet. apply bool_decide_eq_true in Hend.
    rewrite Hbank. cbn [mbind option_bind].
    destruct (bind_swars_total sdat sbnkInfo 4 0
                (set_sbnk (sbnk sbnkInfo)
                   (Setup sseq (seq_origFilename info)
                      (set_sseqVol (Cnv_Scale (vol info)) new_TimerPlayer)))
                ltac:(lia) Hwave) as (p2 & Hp2 & _ & _).
    rewrite Hp2. cbn [mbind option_bind].
    set (player2 := set_doNotes true (set_maxSeconds (time first + 30) p2)).
    set (second := GetTime_player interpreter player2 40 numberOfLoops).
    destruct (static_cast_int (time second) =? -1) eqn:Hs; cbn [negb].
    + exists first, false, [(player1, 20%nat); (player2, 40%nat)].
      split; [reflexivity|]. split; [reflexivity|]. cbn zeta.
      split; [split; [intros _; split; assumption|intros _; exists player2; reflexivity]|].
      split; [discriminate|].
      intros pl b Hl. injection Hl as <- <-.
      split; [lia|]. split; [reflexivity|]. split; [reflexivity|].
      fold second. unfold undetermined. rewrite Hs. split; reflexivity.
    + exists second, true, [(player1, 20%nat); (player2, 40%nat)].
      split; [reflexivity|]. split; [reflexivity|]. cbn zeta.
      split; [split; [intros _; split; assumption|intros _; exists player2; reflexivity]|].
      split; [discriminate|].
      intros pl b Hl. injection Hl as <- <-.
      split; [lia|]. split; [reflexivity|]. split; [reflexivity|].
      fold second. unfold undetermined. rewrite Hs. split; reflexivity.
  - exists first, false, [(player1, 20%nat)].
    split; [reflexivity|]. split; [reflexivity|]. cbn zeta.
    split; [split|].
    + intros [pl Hpl]. discriminate.
    + intros [Hdet Hend]. unfold undetermined in Hdet. fold first in Hdet.
      rewrite Hdet in Hc. cbn [negb andb] in Hc.
      apply bool_decide_eq_false in Hc. contradiction.
    + split; [intros _; split; reflexivity|]. intros pl b Hl. discriminate.
Qed.

(** The tags left by a verdict above -1 second, hence by every verdict
    with a non-negative elapsed time. *)
Lemma GetTime_tags_determined filename tgs verbose fadeLoop fadeOneShot length gotLength :
  (-1 < time length)%Q →
  let tags' := fst (GetTime_tags SecondsToString stringify filename tgs verbose
                      fadeLoop fadeOneShot length gotLength) in
  tags tags' !! "length"
    = Some (SecondsToString (inject_Z (Z.max 1 (Qceiling (time length)))))
  ∧ tags tags' !! "fade"
    = Some (stringify (match type length with LOOP => fadeLoop | END => fadeOneShot end)).
Proof.
  intros Hpos. pose proof (undetermined_above_minus_one _ Hpos) as Hdet.
  unfold undetermined in Hdet. unfold GetTime_tags. rewrite Hdet. cbn [negb fst].
  assert (Hceil : Qceiling (time (if static_cast_int (time length) =? 0
                                  then mkTime 1 (type length) else length))
                  = Z.max 1 (Qceiling (time length))).
  { rewrite <- (ceiling_at_least_one _ Hpos).
    destruct (static_cast_int (time length) =? 0); reflexivity. }
  rewrite Hceil. cbn [TagList_set tags]. split.
  - apply lookup_insert_eq.
  - rewrite lookup_insert_ne by discriminate.
    destruct (type length); apply lookup_insert_eq.
Qed.

(** C7: when the final verdict is determined (its elapsed time is above
    -1, as every non-negative one is), the engine sets 'length' to the
    rendering of the elapsed seconds rounded up, and of 1 when that would
    be below 1; and 'fade' to the rendering of the loop constant for the
    type LOOP, of the one-shot constant otherwise. *)
Theorem GetTime_sets_length_and_fade filename sdat sseq tgs verbose numberOfLoops
    fadeLoop fadeOneShot final gotLength passes :
  GetTime_passes new_TimerPlayer interpreter sdat sseq numberOfLoops
    = Some (final, gotLength, passes) →
  (-1 < time final)%Q →
  ∃ o, GetTime new_TimerPlayer interpreter SecondsToString stringify
         filename sdat sseq tgs verbose numberOfLoops fadeLoop fadeOneShot = Some o
       ∧ out_passes o = passes
       ∧ tags (out_tags o) !! "length"
         = Some (SecondsToString (inject_Z (Z.max 1 (Qceiling (time final)))))
       ∧ tags (out_tags o) !! "fade"
         = Some (stringify (match type final with LOOP => fadeLoop | END => fadeOneShot end)).
Proof.
  intros Hpasses Hpos. unfold GetTime. rewrite Hpasses. cbn [mbind option_bind].
  pose proof (GetTime_tags_determined filename tgs verbose fadeLoop fadeOneShot
                final gotLength Hpos) as Htags.
  destruct (GetTime_tags SecondsToString stringify filename tgs verbose fadeLoop
              fadeOneShot final gotLength) as [tags' cout].
  eexists. split; [reflexivity|]. split; [reflexivity|]. exact Htags.
Qed.

(** With [verbose] off, an undetermined verdict leaves the dictionary
    exactly as it was. *)
Lemma GetTime_tags_undetermined_quiet filename tgs fadeLoop fadeOneShot length gotLength :
  undetermined length = true →
  GetTime_tags SecondsToString stringify filename tgs false fadeLoop fadeOneShot
    length gotLength = (tgs, []).
Proof.
  unfold undetermined, GetTime_tags. intros ->. reflexivity.
Qed.

(** With [verbose] on, it removes both tags. *)
Lemma GetTime_tags_undetermined_verbose filename tgs fadeLoop fadeOneShot length gotLength :
  undetermined length = true →
  let tags' := fst (GetTime_tags SecondsToString stringify filename tgs true
                      fadeLoop fadeOneShot length gotLength) in
  tags tags' !! "length" = None ∧ tags tags' !! "fade" = None.
Proof.
  unfold undetermined, GetTime_tags. intros ->. cbn [negb fst Remove tags]. split.
  - apply lookup_delete_eq.
  - rewrite lookup_delete_ne by discriminate. apply lookup_delete_eq.
Qed.

End EngineFacts.

(** ** SSEQ::Read *)

Lemma ReadLE_bytes_fail n f :
  pos f < 0 ∨ n < 0 ∨ file_size f < pos f + n →
  ReadLE_bytes n f = inl (range_error ReadPastEnd).
Proof.
  intros H. unfold ReadLE_bytes.
  destruct (0 <=? pos f) eqn:E1; [|reflexivity].
  destruct (0 <=? n) eqn:E2; [|reflexivity].
  destruct (pos f + n <=? file_size f) eqn:E3; [|reflexivity].
  apply Z.leb_le in E1, E2, E3. lia.
Qed.

Lemma ReadLE_bytes_inr n f bs f' :
  ReadLE_bytes n f = inr (bs, f') →
  0 <= pos f ∧ 0 <= n ∧ pos f + n <= file_size f
  ∧ bs = take (Z.to_nat n) (drop (Z.to_nat (pos f)) (data f))
  ∧ f' = mkFile (data f) (pos f + n).
Proof.
  unfold ReadLE_bytes.
  destruct (0 <=? pos f) eqn:E1; [|discriminate].
  destruct (0 <=? n) eqn:E2; [|discriminate].
  destruct (pos f + n <=? file_size f) eqn:E3; [|discriminate].
  apply Z.leb_le in E1, E2, E3. cbn [andb]. intros H. injection H as <- <-.
  repeat split; assumption.
Qed.

Lemma ReadLE_bytes_inl n f e :
  ReadLE_bytes n f = inl e → e = range_error ReadPastEnd.
Proof.
  unfold ReadLE_bytes. destruct (_ && _); [discriminate|]. congruence.
Qed.

Lemma ReadLE_bytes_length n f bs f' :
  ReadLE_bytes n f = inr (bs, f') → Z.of_nat (length bs) = n.
Proof.
  intros H. apply ReadLE_bytes_inr in H. destruct H as (Hp & Hn & Hs & -> & _).
  unfold file_size in Hs. rewrite length_take, length_drop. lia.
Qed.


Lemma NDSStdHeader_Read_run d p :
  NDSStdHeader_Read (mkFile d p) =
    if (0 <=? p) && (p + 16 <=? Z.of_nat (length d))
    then inr (mkStdHeader (sseq_tag d p) (sseq_magic d p)
                (LE_decode (take 4 (drop (Z.to_nat (p + 8)) d)))
                (LE_decode (take 2 (drop (Z.to_nat (p + 12)) d)))
                (LE_decode (take 2 (drop (Z.to_nat (p + 14)) d))),
              mkFile d (p + 16))
    else inl (range_error ReadPastEnd).
Proof.
  unfold NDSStdHeader_Read.
  destruct (0 <=? p) eqn:Ep; cbn [andb].
  2:{ apply Z.leb_gt in Ep. unfold mbind at 1, M_bind at 1.
      rewrite ReadLE_bytes_fail by (cbn [pos]; lia). reflexivity. }
  apply Z.leb_le in Ep.
  destruct (p + 16 <=? Z.of_nat (length d)) eqn:El.
  - apply Z.leb_le in El.
    unfold mbind at 1, M_bind at 1.
    rewrite ReadLE_bytes_ok by (unfold file_size; cbn [data pos]; lia). cbn [data pos].
    unfold mbind at 1, M_bind at 1.
    rewrite ReadLE_u32_ok by (unfold file_size; cbn [data pos]; lia). cbn [data pos].
    unfold mbind at 1, M_bind at 1.
    rewrite ReadLE_u32_ok by (unfold file_size; cbn [data pos]; lia). cbn [data pos].
    unfold mbind at 1, M_bind at 1.
    rewrite ReadLE_bytes_ok by (unfold file_size; cbn [data pos]; lia). cbn [data pos].
    unfold mbind at 1, M_bind at 1.
    rewrite ReadLE_bytes_ok by (unfold file_size; cbn [data pos]; lia). cbn [data pos].
    unfold mret, M_ret, sseq_tag, sseq_magic.
    replace (p + 4 + 4) with (p + 8) by lia.
    replace (p + 8 + 4) with (p + 12) by lia.
    replace (p + 12 + 2) with (p + 14) by lia.
    replace (p + 14 + 2) with (p + 16) by lia.
    reflexivity.
  - apply Z.leb_gt in El.
    unfold mbind at 1, M_bind at 1.
    destruct (ReadLE_bytes 4 (mkFile d p)) as [e|[b1 f1]] eqn:E1.
    { apply ReadLE_bytes_inl in E1. congruence. }
    apply ReadLE_bytes_inr in E1. cbn [data pos] in E1. destruct E1 as (_ & _ & H1 & _ & ->).
    unfold mbind at 1, M_bind at 1, ReadLE_u32 at 1, mbind at 1, M_bind at 1.
    destruct (ReadLE_bytes 4 (mkFile d (p + 4))) as [e|[b2 f2]] eqn:E2.
    { apply ReadLE_bytes_inl in E2. congruence. }
    apply ReadLE_bytes_inr in E2. cbn [data pos] in E2. destruct E2 as (_ & _ & H2 & _ & ->).
    cbn [mret M_ret].
    unfold mbind at 1, M_bind at 1, ReadLE_u32 at 1, mbind at 1, M_bind at 1.
    destruct (ReadLE_bytes 4 (mkFile d (p + 4 + 4))) as [e|[b3 f3]] eqn:E3.
    { apply ReadLE_bytes_inl in E3. congruence. }
    apply ReadLE_bytes_inr in E3. cbn [data pos] in E3. destruct E3 as (_ & _ & H3 & _ & ->).
    cbn [mret M_ret].
    unfold mbind at 1, M_bind at 1.
    destruct (ReadLE_bytes 2 (mkFile d (p + 4 + 4 + 4))) as [e|[b4 f4]] eqn:E4.
    { apply ReadLE_bytes_inl in E4. congruence. }
    apply ReadLE_bytes_inr in E4. cbn [data pos] in E4. destruct E4 as (_ & _ & H4 & _ & ->).
    unfold mbind at 1, M_bind at 1.
    rewrite ReadLE_bytes_fail by (unfold file_size in *; cbn [data pos] in *; lia).
    reflexivity.
Qed.

(** [SSEQ::Read] in one equation: the checks and reads in their order. *)
Lemma SSEQ_Read_run this d p :
  SSEQ_Read this (mkFile d p) =
    if (0 <=? p) && (p + 16 <=? Z.of_nat (length d)) then
      if negb (VerifyHeader (sseq_tag d p) "SSEQ") || negb (sseq_magic d p =? 16842495)
      then inl (runtime_error (StdHeaderInvalid "SSEQ"))
      else if p + 20 <=? Z.of_nat (length d) then
        if negb (VerifyHeader (sseq_data_tag d p) "DATA")
        then inl (runtime_error SSEQDataInvalid)
        else if p + 28 <=? Z.of_nat (length d) then
          match ReadLE_bytes (wrap32 (sseq_data_size d p - 12))
                  (mkFile d (wrap32 (wrap32 p + sseq_data_offset d p))) with
          | inl e => inl e
          | inr (payload, f') =>
              inr (mkSSEQ (sseq_filename this) (sseq_origFilename this) payload
                     (entryNumber this), f')
          end
        else inl (range_error ReadPastEnd)
      else inl (range_error ReadPastEnd)
    else inl (range_error ReadPastEnd).
Proof.
  unfold SSEQ_Read. unfold mbind at 1, M_bind at 1, get_file at 1. cbn [pos].
  unfold mbind at 1, M_bind at 1. rewrite NDSStdHeader_Read_run.
  destruct ((0 <=? p) && (p + 16 <=? Z.of_nat (length d))) eqn:E16; [|reflexivity].
  apply andb_true_iff in E16. destruct E16 as [Ep E16].
  apply Z.leb_le in Ep, E16.
  unfold mbind at 1, M_bind at 1, NDSStdHeader_Verify. cbn [hdr_type hdr_magic].
  destruct (negb (VerifyHeader (sseq_tag d p) "SSEQ") || negb (sseq_magic d p =? 16842495));
    [reflexivity|].
  cbn [mret M_ret].
  unfold mbind at 1, M_bind at 1.
  destruct (p + 20 <=? Z.of_nat (length d)) eqn:E20.
  2:{ apply Z.leb_gt in E20.
      rewrite ReadLE_bytes_fail by (unfold file_size; cbn [data pos]; lia). reflexivity. }
  apply Z.leb_le in E20.
  rewrite ReadLE_bytes_ok by (unfold file_size; cbn [data pos]; lia). cbn [data pos].
  change (Z.to_nat 4) with 4%nat. fold (sseq_data_tag d p).
  destruct (negb (VerifyHeader (sseq_data_tag d p) "DATA")); [reflexivity|].
  unfold mbind at 1, M_bind at 1, ReadLE_u32 at 1, mbind at 1, M_bind at 1.
  destruct (ReadLE_bytes 4 (mkFile d (p + 16 + 4))) as [e|[b1 f1]] eqn:E1.
  { pose proof (ReadLE_bytes_inl _ _ _ E1) as ->.
    destruct (p + 28 <=? Z.of_nat (length d)) eqn:E28; [|reflexivity].
    apply Z.leb_le in E28.
    rewrite ReadLE_bytes_ok in E1 by (unfold file_size; cbn [data pos]; lia). discriminate. }
  apply ReadLE_bytes_inr in E1. cbn [data pos] in E1.
  destruct E1 as (_ & _ & H1 & -> & ->). cbn [mret M_ret].
  unfold mbind at 1, M_bind at 1, ReadLE_u32 at 1, mbind at 1, M_bind at 1.
  destruct (p + 28 <=? Z.of_nat (length d)) eqn:E28.
  2:{ apply Z.leb_gt in E28.
      rewrite ReadLE_bytes_fail by (unfold file_size; cbn [data pos]; lia). reflexivity. }
  apply Z.leb_le in E28.
  rewrite ReadLE_bytes_ok by (unfold file_size; cbn [data pos]; lia). cbn [data pos].
  cbn [mret M_ret].
  unfold mbind at 1, M_bind at 1, set_pos at 1. cbn [data].
  unfold mbind at 1, M_bind at 1.
  replace (p + 16 + 4) with (p + 20) by lia.
  replace (p + 20 + 4) with (p + 24) by lia.
  fold (sseq_data_size d p). fold (sseq_data_offset d p).
  destruct (ReadLE_bytes _ _) as [e|[payload f']]; reflexivity.
Qed.

(** C8: on a cursor at [p] whose buffer holds the 16-byte sub-header and the
    4-byte tag of the data section, [SSEQ::Read] throws the structural error
    when the sub-header tag is not "SSEQ", and whenever the data tag is not
    "DATA" (the error of the data section itself behind a good sub-header).
    When it succeeds both tags matched and the payload is the run of
    [size - 12] bytes (a 32-bit difference) found at
    [startOfSSEQ + dataOffset]; and for a declared size of 12 or more, with
    the payload inside the buffer, it does succeed. *)
Theorem SSEQ_Read_structure this d p :
  0 <= p → p + 20 <= Z.of_nat (length d) →
  let size := sseq_data_size d p in
  let start := wrap32 (wrap32 p + sseq_data_offset d p) in
  (sseq_tag d p ≠ bytes_of_string "SSEQ" →
     SSEQ_Read this (mkFile d p) = inl (runtime_error (StdHeaderInvalid "SSEQ")))
  ∧ (sseq_tag d p = bytes_of_string "SSEQ" → sseq_magic d p = 16842495 →
     sseq_data_tag d p ≠ bytes_of_string "DATA" →
       SSEQ_Read this (mkFile d p) = inl (runtime_error SSEQDataInvalid))
  ∧ (sseq_data_tag d p ≠ bytes_of_string "DATA" →
       ∃ what, SSEQ_Read this (mkFile d p) = inl (runtime_error what))
  ∧ (∀ s f', SSEQ_Read this (mkFile d p) = inr (s, f') →
       sseq_tag d p = bytes_of_string "SSEQ"
       ∧ sseq_data_tag d p = bytes_of_string "DATA"
       ∧ sseq_data s = take (Z.to_nat (wrap32 (size - 12))) (drop (Z.to_nat start) d)
       ∧ Z.of_nat (length (sseq_data s)) = wrap32 (size - 12)
       ∧ (12 <= size → Z.of_nat (length (sseq_data s)) = size - 12)
       ∧ (Z.of_nat (length d) < 2 ^ 32 - 12 → 12 <= size))
  ∧ (sseq_tag d p = bytes_of_string "SSEQ" → sseq_magic d p = 16842495 →
     sseq_data_tag d p = bytes_of_string "DATA" →
     p + 28 <= Z.of_nat (length d) → 12 <= size →
     start + (size - 12) <= Z.of_nat (length d) →
       SSEQ_Read this (mkFile d p)
       = inr (mkSSEQ (sseq_filename this) (sseq_origFilename this)
                (take (Z.to_nat (size - 12)) (drop (Z.to_nat start) d)) (entryNumber this),
              mkFile d (start + (size - 12)))).
Proof.
  intros Hp H20 size start.
  assert (Hsize : 0 <= size < 2 ^ 32).
  { pose proof (LE_decode_range (take 4 (drop (Z.to_nat (p + 20)) d))) as Hr.
    fold (sseq_data_size d p) in Hr. fold size in Hr.
    assert (256 ^ Z.of_nat (length (take 4 (drop (Z.to_nat (p + 20)) d))) <= 256 ^ 4).
    { apply Z.pow_le_mono_r; [lia|]. rewrite length_take. lia. }
    change (256 ^ 4) with (2 ^ 32) in *. lia. }
  pose proof (wrap32_range (wrap32 p + sseq_data_offset d p)) as Hstart. fold start in Hstart.
  rewrite SSEQ_Read_run.
  rewrite (proj2 (Z.leb_le 0 p) Hp).
  rewrite (proj2 (Z.leb_le (p + 16) _)) by lia.
  rewrite (proj2 (Z.leb_le (p + 20) _)) by lia. cbn [andb].
  fold size. fold start. unfold VerifyHeader.
  split; [|split; [|split; [|split]]].
  - intros Htag. rewrite bool_decide_eq_false_2 by exact Htag. reflexivity.
  - intros Htag Hmagic Hdata.
    rewrite bool_decide_eq_true_2 by exact Htag.
    rewrite Hmagic. cbn [negb orb]. change (16842495 =? 16842495) with true. cbn [negb].
    rewrite bool_decide_eq_false_2 by exact Hdata. reflexivity.
  - intros Hdata.
    destruct (negb (bool_decide (sseq_tag d p = bytes_of_string "SSEQ"))
              || negb (sseq_magic d p =? 16842495)); [eexists; reflexivity|].
    rewrite bool_decide_eq_false_2 by exact Hdata. eexists. reflexivity.
  - intros s f'.
    destruct (bool_decide (sseq_tag d p = bytes_of_string "SSEQ")) eqn:Htag;
      [|discriminate]. apply bool_decide_eq_true in Htag. cbn [negb orb].
    destruct (negb (sseq_magic d p =? 16842495)); [discriminate|].
    destruct (bool_decide (sseq_data_tag d p = bytes_of_string "DATA")) eqn:Hdata;
      [|discriminate]. apply bool_decide_eq_true in Hdata. cbn [negb].
    destruct (p + 28 <=? Z.of_nat (length d)); [|discriminate].
    destruct (ReadLE_bytes (wrap32 (size - 12)) (mkFile d start)) as [e|[payload f2]] eqn:Er;
      [discriminate|].
    intros H. injection H as <- <-. cbn [sseq_data].
    pose proof (ReadLE_bytes_length _ _ _ _ Er) as Hlen.
    apply ReadLE_bytes_inr in Er. cbn [data pos] in Er.
    destruct Er as (_ & _ & Hfit & -> & _). unfold file_size in Hfit. cbn [data] in Hfit.
    split; [exact Htag|]. split; [exact Hdata|]. split; [reflexivity|].
    split; [exact Hlen|]. split.
    + intros H12. rewrite Hlen. apply wrap32_small. lia.
    + intros Hsmall. destruct (Z.le_gt_cases 12 size) as [|Hlt]; [assumption|].
      exfalso. unfold wrap32 in Hfit.
      replace (size - 12) with (size - 12 + 2 ^ 32 + (-1) * 2 ^ 32) in Hfit by lia.
      rewrite Z.mod_add in Hfit by lia.
      rewrite Z.mod_small in Hfit by lia. lia.
  - intros Htag Hmagic Hdata H28 H12 Hin.
    rewrite bool_decide_eq_true_2 by exact Htag.
    rewrite Hmagic. change (16842495 =? 16842495) with true. cbn [negb orb].
    rewrite bool_decide_eq_true_2 by exact Hdata. cbn [negb].
    rewrite (proj2 (Z.leb_le (p + 28) _)) by lia.
    rewrite (wrap32_small (size - 12)) by lia.
    rewrite ReadLE_bytes_ok by (unfold file_size; cbn [data pos]; lia).
    reflexivity.
Qed.

Lemma demo_sdat_resolved : archive_resolved demo_sdat demo_sseq.
Proof.
  eexists. split; [reflexivity|]. eexists. split; [reflexivity|].
  intros i Hi. exists 65535.
  do 4 (destruct i as [|i]; [split; [reflexivity|intros H; contradiction]|]). lia.
Defined.

Lemma GetTime_passes_second_pass_witness :
  ∃ player1 final gotLength passes,
    GetTime_passes fresh_player one_shot demo_sdat demo_sseq 2
    = Some (final, gotLength, passes)
    ∧ passes !! 0%nat = Some (player1, 20%nat)
    ∧ let first := GetTime_player one_shot player1 20 2 in
      ((∃ player2, passes = [(player1, 20%nat); (player2, 40%nat)])
         ↔ undetermined first = false ∧ type first = END)
      ∧ (passes = [(player1, 20%nat)] → final = first ∧ gotLength = false)
      ∧ ∀ player2 bound2, passes !! 1%nat = Some (player2, bound2) →
          (20 < bound2)%nat ∧ bound2 = 40%nat
          ∧ p_doNotes player2 = true
          ∧ let second := GetTime_player one_shot player2 bound2 2 in
            final = (if undetermined second then first else second)
            ∧ gotLength = negb (undetermined second).
Proof.
  apply (GetTime_passes_second_pass fresh_player one_shot demo_sdat demo_sseq 2).
  exact demo_sdat_resolved.
Defined.


(** A one-shot track of 12.3 seconds gets the length 0:13 and the one-shot
    fade; fade constants are 10 for loops and 0 for one-shots. *)
Lemma GetTime_sets_length_and_fade_witness :
  ∃ o, GetTime fresh_player one_shot minutes_seconds decimal
         "BGM_TITLE" demo_sdat demo_sseq stale_tags false 2 10 0 = Some o
       ∧ out_passes o = one_shot_passes
       ∧ tags (out_tags o) !! "length" = Some "0:13"
       ∧ tags (out_tags o) !! "fade" = Some "0".
Proof.
  apply (GetTime_sets_length_and_fade fresh_player one_shot minutes_seconds decimal
           "BGM_TITLE" demo_sdat demo_sseq stale_tags false 2 10 0
           (mkTime (123 # 10) END) true one_shot_passes).
  - vm_compute. reflexivity.
  - vm_compute. reflexivity.
Defined.

(** A looping track gets the loop fade. *)
Lemma GetTime_looping_fade :
  ∃ o, GetTime fresh_player looping minutes_seconds decimal
         "BGM_TITLE" demo_sdat demo_sseq TagList_empty false 2 10 0 = Some o
       ∧ tags (out_tags o) !! "length" = Some "1:35"
       ∧ tags (out_tags o) !! "fade" = Some "10"
       ∧ length (out_passes o) = 1%nat.
Proof. eexists. split; [reflexivity|]. vm_compute. repeat split; reflexivity. Qed.

(** C1 (evaluation at the failing input): the interpreter never finishes,
    so the only pass times out and the verdict is undetermined.  With
    [verbose] off the stale 'length' and 'fade' tags are still there
    afterwards; with [verbose] on, and nothing else changed, they are
    removed. *)
Theorem GetTime_quiet_keeps_stale_tags :
  tags stale_tags !! "length" = Some "1:23" ∧ tags stale_tags !! "fade" = Some "10"
  ∧ GetTime_passes fresh_player never_finishes demo_sdat demo_sseq 2
    = Some (mkTime (-1) LOOP, false,
            [(set_maxSeconds 6000 (Setup demo_sseq "BGM_TITLE" fresh_player), 20%nat)])
  ∧ (∃ o, GetTime fresh_player never_finishes minutes_seconds decimal
            "BGM_TITLE" demo_sdat demo_sseq stale_tags false 2 10 0 = Some o
          ∧ out_tags o = stale_tags
          ∧ tags (out_tags o) !! "length" = Some "1:23"
          ∧ tags (out_tags o) !! "fade" = Some "10")
  ∧ (∃ o, GetTime fresh_player never_finishes minutes_seconds decimal
            "BGM_TITLE" demo_sdat demo_sseq stale_tags true 2 10 0 = Some o
          ∧ tags (out_tags o) !! "length" = None
          ∧ tags (out_tags o) !! "fade" = None).
Proof.
  split; [vm_compute; reflexivity|]. split; [vm_compute; reflexivity|].
  split; [vm_compute; reflexivity|].
  split; eexists; (split; [reflexivity|]); vm_compute; repeat split; reflexivity.
Qed.


Lemma SSEQ_Read_structure_witness :
  SSEQ_Read demo_sseq (mkFile demo_sseq_file 0)
  = inr (mkSSEQ "BGM_TITLE.sseq" "BGM_TITLE" [x90; x3c; xff] 0, mkFile demo_sseq_file 31).
Proof.
  apply (proj2 (proj2 (proj2 (proj2 (SSEQ_Read_structure demo_sseq demo_sseq_file 0
                                       ltac:(lia) ltac:(vm_compute; discriminate)))))).
  - vm_compute. reflexivity.
  - vm_compute. reflexivity.
  - vm_compute. reflexivity.
  - vm_compute. discriminate.
  - vm_compute. discriminate.
  - vm_compute. discriminate.
Defined.

Lemma SSEQ_Read_bad_data_tag :
  SSEQ_Read demo_sseq (mkFile bad_data_tag_file 0) = inl (runtime_error SSEQDataInvalid).
Proof. vm_compute. reflexivity. Qed.

(** * Further properties *)

(** ** CheckForValidPSF *)

(** X1: when the two sizes announced in the header and 16 add up below 2^32,
    a buffer is accepted exactly when its magic and version byte match and
    it holds the header and both sections. *)
Theorem CheckForValidPSF_accepts_iff char_signed versionByte d p :
  reserved_size d + program_size d + 16 < 2 ^ 32 →
  (∃ f', CheckForValidPSF char_signed versionByte (mkFile d p) = inr ((), f'))
  ↔ magic_ok d = true ∧ version_ok char_signed d versionByte = true
    ∧ 16 + reserved_size d + program_size d <= Z.of_nat (length d).
Proof.
  intros Hfit. split.
  - intros [f' Hv]. destruct (CheckForValidPSF_accepts _ _ _ _ _ Hv Hfit) as (? & ? & ?).
    tauto.
  - intros (Hm & Hver & Hlen).
    pose proof (LE_decode_range (take 4 (drop 4 d))) as [HR _].
    pose proof (LE_decode_range (take 4 (drop 8 d))) as [HC _].
    fold (reserved_size d) in HR. fold (program_size d) in HC.
    rewrite CheckForValidPSF_run. cbn zeta. rewrite Hm, Hver. cbn [negb].
    rewrite (proj2 (Z.ltb_ge _ 4)) by lia.
    rewrite (proj2 (Z.ltb_ge _ 16)) by lia.
    rewrite (wrap32_small (reserved_size d + 16)) by lia.
    rewrite (wrap32_small (reserved_size d + program_size d)) by lia.
    rewrite (wrap32_small (reserved_size d + program_size d + 16)) by lia.
    rewrite (proj2 (Z.ltb_ge _ (reserved_size d + 16))) by lia.
    rewrite andb_false_r.
    rewrite (proj2 (Z.ltb_ge _ (reserved_size d + program_size d + 16))) by lia.
    rewrite andb_false_r. eexists. reflexivity.
Qed.

Lemma CheckForValidPSF_accepts_iff_witness :
  (∃ f', CheckForValidPSF true x25 (mkFile marker_in_reserved_buffer 0) = inr ((), f'))
  ↔ magic_ok marker_in_reserved_buffer = true
    ∧ version_ok true marker_in_reserved_buffer x25 = true
    ∧ 16 + reserved_size marker_in_reserved_buffer + program_size marker_in_reserved_buffer
      <= Z.of_nat (length marker_in_reserved_buffer).
Proof.
  apply (CheckForValidPSF_accepts_iff true x25 marker_in_reserved_buffer 0).
  vm_compute. reflexivity.
Defined.

(** X2: the only exceptions of the validation are "File is too small.",
    "Not a PSF file." and the version mismatch; no read of the cursor inside
    it ever runs beyond the buffer. *)
Theorem CheckForValidPSF_throws_only char_signed versionByte d p e :
  CheckForValidPSF char_signed versionByte (mkFile d p) = inl e →
  e ≠ range_error ReadPastEnd
  ∧ (e = range_error FileTooSmall ∨ e = runtime_error NotAPSFFile
     ∨ e = runtime_error (VersionByteMismatch (byte_at d 3) versionByte)).
Proof.
  intros H. apply CheckForValidPSF_error_kinds in H.
  split; [|exact H]. destruct H as [-> | [-> | ->]]; discriminate.
Qed.

Lemma CheckForValidPSF_throws_only_witness :
  range_error FileTooSmall ≠ range_error ReadPastEnd
  ∧ (range_error FileTooSmall = range_error FileTooSmall
     ∨ range_error FileTooSmall = runtime_error NotAPSFFile
     ∨ range_error FileTooSmall
       = runtime_error (VersionByteMismatch (byte_at [x50; x53; x46] 3) x25)).
Proof.
  apply (CheckForValidPSF_throws_only true x25 [x50; x53; x46] 0).
  vm_compute. reflexivity.
Defined.

(** X3: with four bytes or more, a wrong magic or a wrong version byte is
    reported as the format error whatever the length of the buffer: a
    buffer of 4 to 15 bytes that is not a PSF file of the version gets the
    format error, not the size error. *)
Theorem CheckForValidPSF_format_error_first char_signed versionByte d p :
  (4 ≤ length d)%nat →
  magic_ok d = false ∨ version_ok char_signed d versionByte = false →
  ∃ what, CheckForValidPSF char_signed versionByte (mkFile d p)
          = inl (runtime_error what).
Proof.
  intros Hlen Hbad. rewrite CheckForValidPSF_run. cbn zeta.
  rewrite (proj2 (Z.ltb_ge _ 4)) by lia.
  destruct (magic_ok d); cbn [negb]; [|eexists; reflexivity].
  destruct Hbad as [? | ->]; [discriminate|]. eexists. reflexivity.
Qed.

Lemma CheckForValidPSF_format_error_first_witness :
  ∃ what, CheckForValidPSF true x25 (mkFile short_bad_magic_buffer 0)
          = inl (runtime_error what).
Proof.
  apply (CheckForValidPSF_format_error_first true x25 short_bad_magic_buffer 0).
  - vm_compute. lia.
  - left. vm_compute. reflexivity.
Defined.

Lemma char_to_int_signed_below b : char_to_int true b < 128.
Proof.
  unfold char_to_int. pose proof (byte_to_Z_range b). cbn [andb].
  destruct (128 <=? byte_to_Z b) eqn:E; [lia|]. apply Z.leb_gt in E. lia.
Qed.

(** X4: where [char] is signed, the comparison [PSFHeader[3] != versionByte]
    promotes a negative [char] and a non-negative [uint8_t]: for a version
    byte of 0x80 or more no buffer at all passes the validation. *)
Theorem CheckForValidPSF_signed_char_high_version versionByte d p :
  128 <= byte_to_Z versionByte →
  ∃ e, CheckForValidPSF true versionByte (mkFile d p) = inl e.
Proof.
  intros Hv. rewrite CheckForValidPSF_run. cbn zeta.
  destruct (Z.of_nat (length d) <? 4); [eexists; reflexivity|].
  destruct (negb (magic_ok d)); [eexists; reflexivity|].
  assert (version_ok true d versionByte = false) as ->.
  { unfold version_ok. apply Z.eqb_neq.
    pose proof (char_to_int_signed_below (byte_at d 3)). lia. }
  eexists. reflexivity.
Qed.

Lemma CheckForValidPSF_signed_char_high_version_witness :
  ∃ e, CheckForValidPSF true x80 (mkFile (psf_header x80 0 0 0) 0) = inl e.
Proof.
  apply (CheckForValidPSF_signed_char_high_version x80 (psf_header x80 0 0 0) 0).
  vm_compute. discriminate.
Defined.

(** The same buffer is accepted where [char] is unsigned. *)
Lemma CheckForValidPSF_unsigned_char_high_version :
  CheckForValidPSF false x80 (mkFile (psf_header x80 0 0 0) 0)
  = inr ((), mkFile (psf_header x80 0 0 0) 16).
Proof. vm_compute. reflexivity. Qed.


(** ** GetProgramSectionFromPSF *)

Lemma uncompress_length inflate dest src :
  length (uncompress inflate dest src) = length dest.
Proof.
  unfold uncompress. rewrite length_app, length_take, length_drop. lia.
Qed.

(** X6: a valid buffer whose compressed-program length is 0 gives the empty
    program section, without exception and whatever the header size, the
    offset of the size field and the flag are; the stream is not touched. *)
Theorem GetProgramSectionFromPSF_no_program char_signed inflate versionByte hs off add d p f' :
  CheckForValidPSF char_signed versionByte (mkFile d p) = inr ((), f') →
  program_size d = 0 →
  GetProgramSectionFromPSF char_signed inflate versionByte hs off add (mkFile d p)
  = inr (Some [], mkFile d 16).
Proof.
  intros Hv HC. rewrite (GetProgramSectionFromPSF_run _ _ _ _ _ _ _ _ _ Hv), HC.
  reflexivity.
Qed.

Lemma GetProgramSectionFromPSF_no_program_witness :
  GetProgramSectionFromPSF true unframed x25 4 0 false (mkFile marker_in_reserved_buffer 0)
  = inr (Some [], mkFile marker_in_reserved_buffer 16).
Proof.
  apply (GetProgramSectionFromPSF_no_program true unframed x25 4 0 false
           marker_in_reserved_buffer 0 (mkFile marker_in_reserved_buffer 25)).
  - vm_compute. reflexivity.
  - vm_compute. reflexivity.
Defined.

(** X7: on a valid buffer with a program section (sizes below 2^32 in sum,
    size field inside the header), the function returns a section whose
    length is the size the stream announces for itself, whatever the stream
    really inflates to: a longer stream is cut, a shorter one is followed by
    zero bytes. *)
Theorem GetProgramSectionFromPSF_length char_signed inflate versionByte hs off add d p f' :
  CheckForValidPSF char_signed versionByte (mkFile d p) = inr ((), f') →
  reserved_size d + program_size d + 16 < 2 ^ 32 →
  program_size d ≠ 0 →
  0 <= off → off + 4 <= hs →
  ∃ r f'', GetProgramSectionFromPSF char_signed inflate versionByte hs off add (mkFile d p)
           = inr (Some r, f'')
           ∧ Z.of_nat (length r) = announced_size inflate hs off add d
           ∧ take (length r) (inflate (compressed_section d))
             = take (length (inflate (compressed_section d))) r
           ∧ ∀ i : nat, (length (inflate (compressed_section d)) ≤ i < length r)%nat →
               r !! i = Some x00.
Proof.
  intros Hv Hfit HC Hoff Hoff4.
  destruct (CheckForValidPSF_accepts _ _ _ _ _ Hv Hfit) as (Hlen & _ & _).
  pose proof (LE_decode_range (take 4 (drop 4 d))) as [HR _].
  pose proof (LE_decode_range (take 4 (drop 8 d))) as [HC0 _].
  fold (reserved_size d) in HR. fold (program_size d) in HC0.
  rewrite (GetProgramSectionFromPSF_run _ _ _ _ _ _ _ _ _ Hv).
  rewrite (proj2 (Z.eqb_neq _ 0) HC).
  rewrite ReadLE_bytes_ok by (unfold file_size; cbn [data pos]; lia).
  cbn [data pos]. fold (compressed_section d). cbn zeta.
  set (header := uncompress inflate (replicate (Z.to_nat hs) x00) (compressed_section d)).
  assert (Hh : length header = Z.to_nat hs)
    by (unfold header; rewrite uncompress_length, length_replicate; reflexivity).
  unfold ReadLE_u32_at. rewrite Hh.
  rewrite (proj2 (Z.leb_le 0 off) Hoff).
  rewrite (proj2 (Z.leb_le (off + 4) _)) by lia. cbn [andb].
  pose proof (LE_decode_range (take 4 (drop (Z.to_nat off) header))) as [Hf _].
  eexists _, _. split; [reflexivity|].
  rewrite uncompress_length, length_resize.
  split; [unfold announced_size; fold header; destruct add; lia|].
  unfold uncompress. rewrite ?length_resize.
  set (n := Z.to_nat _). set (out := inflate (compressed_section d)).
  split.
  - destruct (Nat.le_gt_cases (length out) n) as [Hle|Hgt].
    + rewrite (take_ge out n) by lia. rewrite take_app_length. reflexivity.
    + rewrite (drop_ge (resize n x00 header)) by (rewrite length_resize; lia).
      rewrite app_nil_r, take_take. f_equal. lia.
  - intros i [Hi Hin].
    rewrite lookup_app_r by (rewrite length_take; lia).
    rewrite lookup_drop, length_take.
    replace (length out + (i - length out `min` n))%nat with i by lia.
    destruct (Nat.lt_ge_cases i (length header)) as [Hlt|Hge].
    + rewrite lookup_resize by lia. unfold header, uncompress. fold out.
      rewrite length_replicate, drop_replicate.
      rewrite lookup_app_r by (rewrite length_take; lia).
      apply lookup_replicate_2. rewrite length_take. lia.
    + apply lookup_resize_new; lia.
Qed.

Lemma GetProgramSectionFromPSF_length_witness :
  ∃ r f'', GetProgramSectionFromPSF true unframed x25 4 0 false (mkFile program_buffer 0)
           = inr (Some r, f'')
           ∧ Z.of_nat (length r) = announced_size unframed 4 0 false program_buffer
           ∧ take (length r) (unframed (compressed_section program_buffer))
             = take (length (unframed (compressed_section program_buffer))) r
           ∧ ∀ i : nat,
               (length (unframed (compressed_section program_buffer)) ≤ i < length r)%nat →
               r !! i = Some x00.
Proof.
  apply (GetProgramSectionFromPSF_length true unframed x25 4 0 false program_buffer 0
           (mkFile program_buffer 19)).
  - vm_compute. reflexivity.
  - vm_compute. reflexivity.
  - vm_compute. discriminate.
  - lia.
  - lia.
Defined.

(** ** Whitespace trimming *)

Lemma string_of_list_ascii_app (a b : list ascii) :
  String.string_of_list_ascii (a ++ b)
  = String.string_of_list_ascii a +:+ String.string_of_list_ascii b.
Proof. induction a as [|c a IH]; simpl; [|rewrite IH]; reflexivity. Qed.

Section TrimSpec.

Variable char_signed : bool.

Lemma find_if_not_ws_le l : (find_if_not_ws char_signed l ≤ length l)%nat.
Proof.
  induction l as [|x l IH]; simpl; [lia|].
  destruct (isWhitespace char_signed x); simpl; lia.
Qed.

Lemma find_if_not_ws_take l :
  forallb (isWhitespace char_signed) (take (find_if_not_ws char_signed l) l) = true.
Proof.
  induction l as [|x l IH]; simpl; [reflexivity|].
  destruct (isWhitespace char_signed x) eqn:E; simpl; [rewrite E, IH|]; reflexivity.
Qed.

Lemma find_if_not_ws_drop l x :
  head (drop (find_if_not_ws char_signed l) l) = Some x → isWhitespace char_signed x = false.
Proof.
  induction l as [|y l IH]; simpl; [discriminate|].
  destruct (isWhitespace char_signed y) eqn:E; simpl; [exact IH|].
  intros H. injection H as <-. exact E.
Qed.

Lemma find_if_not_ws_clean l :
  (∀ x, head l = Some x → isWhitespace char_signed x = false) →
  find_if_not_ws char_signed l = O.
Proof.
  destruct l as [|y l]; simpl; [reflexivity|]. intros H.
  rewrite (H y eq_refl). reflexivity.
Qed.

(** The characters of the two one-sided trims. *)
Lemma LeftTrimWhitespace_chars s :
  String.list_ascii_of_string (LeftTrimWhitespace char_signed s)
  = drop (find_if_not_ws char_signed (String.list_ascii_of_string s))
         (String.list_ascii_of_string s).
Proof. unfold LeftTrimWhitespace. apply String.list_ascii_of_string_of_list_ascii. Qed.

Lemma RightTrimWhitespace_chars s :
  let l := String.list_ascii_of_string s in
  String.list_ascii_of_string (RightTrimWhitespace char_signed s)
  = take (length l - find_if_not_ws char_signed (rev l)) l.
Proof. unfold RightTrimWhitespace. apply String.list_ascii_of_string_of_list_ascii. Qed.

Lemma right_trim_tail l :
  forallb (isWhitespace char_signed)
    (drop (length l - find_if_not_ws char_signed (rev l)) l) = true.
Proof.
  pose proof (find_if_not_ws_take (rev l)) as H.
  rewrite rev_alt in *. fold (reverse l) in *.
  rewrite take_reverse in H.
  set (k := find_if_not_ws char_signed (reverse l)) in *.
  rewrite forallb_forall in *. intros x Hx. apply H.
  apply in_rev. rewrite rev_alt. fold (reverse (reverse (drop (length l - k) l))).
  rewrite reverse_involutive. exact Hx.
Qed.

Lemma right_trim_last l x :
  last (take (length l - find_if_not_ws char_signed (rev l)) l) = Some x →
  isWhitespace char_signed x = false.
Proof.
  intros H. apply (find_if_not_ws_drop (rev l)).
  rewrite rev_alt in *. fold (reverse l) in *. rewrite drop_reverse, head_reverse. exact H.
Qed.

(** The characters of a trimmed string, and its two ends. *)
Lemma TrimWhitespace_chars orig :
  let l := String.list_ascii_of_string orig in
  let m := (length l - find_if_not_ws char_signed (rev l))%nat in
  String.list_ascii_of_string (TrimWhitespace char_signed orig)
  = drop (find_if_not_ws char_signed (take m l)) (take m l).
Proof.
  intros l m. unfold TrimWhitespace.
  rewrite LeftTrimWhitespace_chars, RightTrimWhitespace_chars. reflexivity.
Qed.

Lemma TrimWhitespace_ends orig :
  starts_with_whitespace char_signed (TrimWhitespace char_signed orig) = false
  ∧ ends_with_whitespace char_signed (TrimWhitespace char_signed orig) = false.
Proof.
  pose proof (TrimWhitespace_chars orig) as Ht. cbn zeta in Ht.
  set (l := String.list_ascii_of_string orig) in *.
  set (m := (length l - find_if_not_ws char_signed (rev l))%nat) in *.
  set (j := find_if_not_ws char_signed (take m l)) in *.
  split.
  - unfold starts_with_whitespace. rewrite Ht.
    destruct (drop j (take m l)) as [|c rest] eqn:E; [reflexivity|].
    apply (find_if_not_ws_drop (take m l)). fold j. rewrite E. reflexivity.
  - unfold ends_with_whitespace. rewrite Ht.
    destruct (last (drop j (take m l))) as [c|] eqn:E; [|reflexivity].
    apply (right_trim_last l). fold m.
    rewrite <- (take_drop j (take m l)).
    apply last_app_Some. left. exact E.
Qed.

(** X8: [TrimWhitespace] cuts a run of whitespace off each end and nothing
    else: the original is whitespace, then the result, then whitespace, and
    the result neither starts nor ends with whitespace. *)
Theorem TrimWhitespace_spec orig :
  ∃ left right,
    orig = left +:+ TrimWhitespace char_signed orig +:+ right
    ∧ all_whitespace char_signed left = true
    ∧ all_whitespace char_signed right = true
    ∧ starts_with_whitespace char_signed (TrimWhitespace char_signed orig) = false
    ∧ ends_with_whitespace char_signed (TrimWhitespace char_signed orig) = false.
Proof.
  set (l := String.list_ascii_of_string orig).
  set (m := (length l - find_if_not_ws char_signed (rev l))%nat).
  set (j := find_if_not_ws char_signed (take m l)).
  assert (Hr : String.list_ascii_of_string (RightTrimWhitespace char_signed orig) = take m l)
    by apply RightTrimWhitespace_chars.
  assert (Ht : String.list_ascii_of_string (TrimWhitespace char_signed orig)
               = drop j (take m l)).
  { unfold TrimWhitespace. rewrite LeftTrimWhitespace_chars, Hr. reflexivity. }
  exists (String.string_of_list_ascii (take j (take m l))),
         (String.string_of_list_ascii (drop m l)).
  split; [|split; [|split; [|split]]].
  - rewrite <- (String.string_of_list_ascii_of_string (TrimWhitespace char_signed orig)), Ht.
    rewrite <- !string_of_list_ascii_app, app_assoc, take_drop, take_drop.
    symmetry. apply String.string_of_list_ascii_of_string.
  - unfold all_whitespace. rewrite String.list_ascii_of_string_of_list_ascii.
    apply find_if_not_ws_take.
  - unfold all_whitespace. rewrite String.list_ascii_of_string_of_list_ascii.
    apply right_trim_tail.
  - apply TrimWhitespace_ends.
  - apply TrimWhitespace_ends.
Qed.

(** A string without whitespace at its ends is left as it is; hence
    trimming twice is trimming once. *)
Lemma TrimWhitespace_clean s :
  starts_with_whitespace char_signed s = false →
  ends_with_whitespace char_signed s = false →
  TrimWhitespace char_signed s = s.
Proof.
  unfold starts_with_whitespace, ends_with_whitespace. intros Hs He.
  set (l := String.list_ascii_of_string s) in *.
  assert (Hk : find_if_not_ws char_signed (rev l) = O).
  { apply find_if_not_ws_clean. intros x Hx.
    rewrite rev_alt in Hx. fold (reverse l) in Hx. rewrite head_reverse in Hx.
    rewrite Hx in He. exact He. }
  assert (Hr : RightTrimWhitespace char_signed s = s).
  { unfold RightTrimWhitespace. fold l. rewrite Hk, Nat.sub_0_r, firstn_all.
    apply String.string_of_list_ascii_of_string. }
  unfold TrimWhitespace. rewrite Hr. unfold LeftTrimWhitespace. fold l.
  rewrite find_if_not_ws_clean.
  - rewrite drop_0. apply String.string_of_list_ascii_of_string.
  - intros x Hx. destruct l as [|c l']; [discriminate|]. injection Hx as <-. exact Hs.
Qed.

Lemma TrimWhitespace_idempotent s :
  TrimWhitespace char_signed (TrimWhitespace char_signed s)
  = TrimWhitespace char_signed s.
Proof.
  destruct (TrimWhitespace_ends s) as (Hs & He).
  apply TrimWhitespace_clean; assumption.
Qed.

Lemma TrimWhitespace_chars_subseteq s :
  String.list_ascii_of_string (TrimWhitespace char_signed s)
  ⊆ String.list_ascii_of_string s.
Proof.
  unfold TrimWhitespace. rewrite LeftTrimWhitespace_chars.
  etransitivity; [apply subseteq_drop|].
  rewrite RightTrimWhitespace_chars. apply subseteq_take.
Qed.

End TrimSpec.

(** ** The signedness of [char] *)

Lemma isWhitespace_value char_signed x :
  isWhitespace char_signed x
  = (1 <=? byte_to_Z (byte_of_ascii x)) && (byte_to_Z (byte_of_ascii x) <=? 32).
Proof.
  unfold isWhitespace, char_to_int. cbn zeta.
  pose proof (byte_to_Z_range (byte_of_ascii x)) as Hb.
  destruct char_signed; cbn [andb]; [|reflexivity].
  destruct (128 <=? byte_to_Z (byte_of_ascii x)) eqn:E; [|reflexivity].
  apply Z.leb_le in E.
  rewrite (proj2 (Z.leb_gt 1 (byte_to_Z (byte_of_ascii x) - 256))) by lia.
  rewrite (proj2 (Z.leb_gt (byte_to_Z (byte_of_ascii x)) 32)) by lia.
  rewrite andb_false_r. reflexivity.
Qed.

Lemma find_if_not_ws_signedness cs1 cs2 l : find_if_not_ws cs1 l = find_if_not_ws cs2 l.
Proof.
  induction l as [|x l IH]; simpl; [reflexivity|].
  rewrite (isWhitespace_value cs1), (isWhitespace_value cs2), IH. reflexivity.
Qed.

Lemma TrimWhitespace_signedness cs1 cs2 s : TrimWhitespace cs1 s = TrimWhitespace cs2 s.
Proof.
  unfold TrimWhitespace, LeftTrimWhitespace, RightTrimWhitespace. cbn zeta.
  rewrite (find_if_not_ws_signedness cs1 cs2 (rev _)).
  rewrite (find_if_not_ws_signedness cs1 cs2). reflexivity.
Qed.

Lemma tag_step_signedness cs1 cs2 c st : tag_step cs1 c st = tag_step cs2 c st.
Proof.
  unfold tag_step.
  rewrite (TrimWhitespace_signedness cs1 cs2 (st_name st)).
  rewrite (TrimWhitespace_signedness cs1 cs2 (st_value st)). reflexivity.
Qed.

Lemma parse_tags_signedness cs1 cs2 bs : parse_tags cs1 bs = parse_tags cs2 bs.
Proof.
  unfold parse_tags. generalize (mkTagState TagList_empty "" "" true).
  induction bs as [|b bs IH]; intros st; cbn [foldl]; [reflexivity|].
  rewrite (tag_step_signedness cs1 cs2). apply IH.
Qed.

Lemma version_ok_signedness d versionByte :
  byte_to_Z versionByte < 128 →
  version_ok true d versionByte = version_ok false d versionByte.
Proof.
  intros Hv. unfold version_ok, char_to_int. cbn [andb].
  pose proof (byte_to_Z_range (byte_at d 3)).
  pose proof (byte_to_Z_range versionByte).
  destruct (128 <=? byte_to_Z (byte_at d 3)) eqn:E; [|reflexivity].
  apply Z.leb_le in E.
  rewrite (proj2 (Z.eqb_neq _ _)) by lia.
  rewrite (proj2 (Z.eqb_neq _ _)) by lia. reflexivity.
Qed.

(** X9: for a version byte below 0x80, as 0x25 is, the validation and the
    tag extraction give the same result where [char] is signed and where it
    is unsigned; bytes of 0x80 and more are whitespace on neither. *)
Theorem GetTagsFromPSF_char_signedness versionByte f :
  byte_to_Z versionByte < 128 →
  CheckForValidPSF true versionByte f = CheckForValidPSF false versionByte f
  ∧ GetTagsFromPSF true versionByte f = GetTagsFromPSF false versionByte f
  ∧ ∀ x, 128 <= byte_to_Z (byte_of_ascii x) →
         isWhitespace true x = false ∧ isWhitespace false x = false.
Proof.
  intros Hv. destruct f as [d p].
  assert (Hc : CheckForValidPSF true versionByte (mkFile d p)
               = CheckForValidPSF false versionByte (mkFile d p)).
  { rewrite !CheckForValidPSF_run. cbn zeta.
    rewrite (version_ok_signedness d versionByte Hv). reflexivity. }
  split; [exact Hc|]. split.
  - rewrite !GetTagsFromPSF_run, Hc.
    destruct (CheckForValidPSF false versionByte (mkFile d p)); [reflexivity|].
    destruct (search_from TagHeaderVector d 0); [|reflexivity].
    rewrite (parse_tags_signedness true false). reflexivity.
  - intros x Hx. rewrite !isWhitespace_value.
    rewrite (proj2 (Z.leb_gt _ 32)) by lia. rewrite andb_false_r. split; reflexivity.
Qed.

Lemma GetTagsFromPSF_char_signedness_witness :
  CheckForValidPSF true x25 (mkFile blank_name_buffer 0)
  = CheckForValidPSF false x25 (mkFile blank_name_buffer 0)
  ∧ GetTagsFromPSF true x25 (mkFile blank_name_buffer 0)
    = GetTagsFromPSF false x25 (mkFile blank_name_buffer 0)
  ∧ ∀ x, 128 <= byte_to_Z (byte_of_ascii x) →
         isWhitespace true x = false ∧ isWhitespace false x = false.
Proof.
  apply (GetTagsFromPSF_char_signedness x25 (mkFile blank_name_buffer 0)).
  vm_compute. reflexivity.
Defined.

(** ** More on GetTagsFromPSF *)

Lemma search_from_absent pat l base :
  (∀ j : nat, starts_with pat (drop j l) = false) → search_from pat l base = None.
Proof.
  intros H. destruct (search_from pat l base) as [k|] eqn:E; [|reflexivity].
  destruct (search_from_Some _ _ _ _ E) as (n & _ & Hn & _).
  rewrite H in Hn. discriminate.
Qed.

(** X10: a valid buffer in which "[TAG]" occurs nowhere gives the empty
    dictionary, and no exception. *)
Theorem GetTagsFromPSF_no_marker char_signed versionByte d p f' :
  CheckForValidPSF char_signed versionByte (mkFile d p) = inr ((), f') →
  (∀ j : nat, starts_with TagHeaderVector (drop j d) = false) →
  GetTagsFromPSF char_signed versionByte (mkFile d p) = inr (TagList_empty, f').
Proof.
  intros Hv Hno. rewrite GetTagsFromPSF_run.
  pose proof Hv as Hv'. rewrite CheckForValidPSF_run in Hv'. cbn zeta in Hv'.
  rewrite Hv, (search_from_absent _ _ _ Hno).
  repeat match type of Hv' with
         | (if ?c then _ else _) = _ => destruct c; [discriminate|]
         end.
  injection Hv' as <-. reflexivity.
Qed.

Lemma GetTagsFromPSF_no_marker_witness :
  GetTagsFromPSF true x25 (mkFile no_tags_buffer 0)
  = inr (TagList_empty, mkFile no_tags_buffer 18).
Proof.
  apply (GetTagsFromPSF_no_marker true x25 no_tags_buffer 0 (mkFile no_tags_buffer 18)).
  - vm_compute. reflexivity.
  - intros j. do 19 (destruct j as [|j]; [reflexivity|]). reflexivity.
Defined.

(** X11: the tag extraction throws exactly what the validation throws; the
    search for the marker and the record loop never throw, whatever bytes
    follow the marker. *)
Theorem GetTagsFromPSF_throws_as_validation char_signed versionByte f e :
  GetTagsFromPSF char_signed versionByte f = inl e
  ↔ CheckForValidPSF char_signed versionByte f = inl e.
Proof.
  destruct f as [d p]. rewrite GetTagsFromPSF_run.
  destruct (CheckForValidPSF char_signed versionByte (mkFile d p)) as [e'|r].
  - split; intros H; injection H as ->; reflexivity.
  - destruct (search_from TagHeaderVector d 0); split; discriminate.
Qed.

Lemma tag_step_keeps_tags char_signed c st :
  c ≠ "010"%char → st_tags (tag_step char_signed c st) = st_tags st.
Proof.
  intros Hc. unfold tag_step. rewrite decide_False by exact Hc.
  destruct (decide (c = "="%char)); [reflexivity|].
  destruct (st_onName st); reflexivity.
Qed.

Lemma ascii_of_byte_newline b : ascii_of_byte b = "010"%char → b = x0a.
Proof.
  intros H. apply (f_equal byte_of_ascii) in H.
  rewrite byte_of_ascii_of_byte in H. exact H.
Qed.

Lemma parse_tags_unterminated char_signed bs tail :
  x0a ∉ tail →
  st_tags (parse_tags char_signed (bs ++ tail)) = st_tags (parse_tags char_signed bs).
Proof.
  unfold parse_tags. rewrite foldl_app.
  generalize (foldl (λ st b, tag_step char_signed (ascii_of_byte b) st)
                (mkTagState TagList_empty "" "" true) bs).
  induction tail as [|b tail IH]; intros st Hno; [reflexivity|].
  cbn [foldl]. rewrite IH by (intros H; apply Hno; right; exact H).
  apply tag_step_keeps_tags. intros Hb. apply ascii_of_byte_newline in Hb.
  apply Hno. rewrite Hb. left.
Qed.

(** X12: only a record ended by 0x0A reaches the dictionary: the bytes
    behind the last 0x0A of the file, a last record without its terminator,
    are dropped. *)
Theorem GetTagsFromPSF_unterminated_record char_signed versionByte pre rest tail p f' :
  let d := pre ++ TagHeaderVector ++ rest ++ tail in
  CheckForValidPSF char_signed versionByte (mkFile d p) = inr ((), f') →
  (∀ j : nat, (j < length pre)%nat → starts_with TagHeaderVector (drop j d) = false) →
  x0a ∉ tail →
  ∃ f'', GetTagsFromPSF char_signed versionByte (mkFile d p)
         = inr (st_tags (parse_tags char_signed rest), f'').
Proof.
  intros d Hv Hfirst Hno.
  destruct (GetTagsFromPSF_at_first_marker _ _ _ _ _ _ Hv Hfirst) as [_ Ht].
  eexists. subst d. cbn zeta in Ht. rewrite Ht, parse_tags_unterminated by exact Hno.
  reflexivity.
Qed.

Lemma GetTagsFromPSF_unterminated_record_witness :
  ∃ f'', GetTagsFromPSF true x25 (mkFile unterminated_record_buffer 0)
         = inr (st_tags (parse_tags true (bytes_of_string (line "a=b"))), f'').
Proof.
  apply (GetTagsFromPSF_unterminated_record true x25 (psf_header x25 0 0 0)
           (bytes_of_string (line "a=b")) (bytes_of_string "c=d") 0
           (mkFile unterminated_record_buffer 16)).
  - vm_compute. reflexivity.
  - first_marker_at 16.
  - vm_compute. intros H. repeat (apply elem_of_cons in H; destruct H as [H|H];
      [discriminate|]). apply elem_of_nil in H. exact H.
Defined.

(** The one record of that file that is kept. *)
Lemma unterminated_record_parse char_signed :
  st_tags (parse_tags char_signed (bytes_of_string (line "a=b")))
  = mkTags {[ "a" := "b" ]} ["a"].
Proof. destruct char_signed; vm_compute; reflexivity. Qed.

(** ** The keys of the dictionary *)

Lemma no_newline_empty : no_newline "".
Proof. unfold no_newline. simpl. apply not_elem_of_nil. Qed.

Lemma no_newline_app a b : no_newline a → no_newline b → no_newline (a +:+ b).
Proof.
  unfold no_newline. intros Ha Hb. rewrite list_ascii_of_string_app, elem_of_app. tauto.
Qed.

Lemma no_newline_char c : c ≠ "010"%char → no_newline (String c EmptyString).
Proof.
  unfold no_newline. simpl. intros Hc H. apply list_elem_of_singleton in H. congruence.
Qed.

Section Keys.

Variable char_signed : bool.

Lemma tag_step_keys_trimmed curr st :
  keys_trimmed char_signed st → keys_trimmed char_signed (tag_step char_signed curr st).
Proof.
  intros [Hn Ht]. unfold tag_step.
  destruct (decide (curr = "010"%char)) as [_|Hnl].
  - split; [apply no_newline_empty|]. cbn [st_tags].
    destruct (negb (string_is_empty (st_name st)) && negb (string_is_empty (st_value st)));
      [|exact Ht].
    assert (Hk : TrimWhitespace char_signed (TrimWhitespace char_signed (st_name st))
                 = TrimWhitespace char_signed (st_name st)
                 ∧ no_newline (TrimWhitespace char_signed (st_name st))).
    { split; [apply TrimWhitespace_idempotent|].
      intros Hin. apply Hn. exact (TrimWhitespace_chars_subseteq _ _ _ Hin). }
    destruct (Exists (TrimWhitespace char_signed (st_name st)) (st_tags st));
      cbn [TagList_set tags]; apply map_Forall_insert_2; assumption.
  - destruct (decide (curr = "="%char)) as [_|Heq]; [split; assumption|].
    destruct (st_onName st); (split; [|exact Ht]); cbn [st_name]; [|exact Hn].
    apply no_newline_app; [exact Hn|]. apply no_newline_char. exact Hnl.
Qed.

Lemma parse_tags_keys_trimmed bs : keys_trimmed char_signed (parse_tags char_signed bs).
Proof.
  unfold parse_tags.
  assert (H0 : keys_trimmed char_signed (mkTagState TagList_empty "" "" true))
    by (split; [apply no_newline_empty|apply map_Forall_empty]).
  revert H0. generalize (mkTagState TagList_empty "" "" true).
  induction bs as [|b bs IH]; intros st Hst; [exact Hst|].
  cbn [foldl]. apply IH, tag_step_keys_trimmed, Hst.
Qed.

(** X13: every key of the returned dictionary is a trimmed name: it
    neither starts nor ends with whitespace, trimming it again changes
    nothing, and it holds no 0x0A. *)
Theorem GetTagsFromPSF_keys_trimmed versionByte f t f' name value :
  GetTagsFromPSF char_signed versionByte f = inr (t, f') →
  tags t !! name = Some value →
  TrimWhitespace char_signed name = name
  ∧ starts_with_whitespace char_signed name = false
  ∧ ends_with_whitespace char_signed name = false
  ∧ no_newline name.
Proof.
  destruct f as [d p]. rewrite GetTagsFromPSF_run.
  destruct (CheckForValidPSF char_signed versionByte (mkFile d p)) as [e|_]; [discriminate|].
  destruct (search_from TagHeaderVector d 0) as [k|]; intros Heq Hlook.
  - injection Heq as <- _.
    destruct (parse_tags_keys_trimmed (drop (Z.to_nat (k + 5)) d)) as [_ Hall].
    destruct (Hall _ _ Hlook) as [Htrim Hnl].
    destruct (TrimWhitespace_ends char_signed name) as (Hs & He).
    rewrite Htrim in Hs, He. tauto.
  - injection Heq as <- _. cbn in Hlook. rewrite lookup_empty in Hlook. discriminate.
Qed.

End Keys.

Lemma GetTagsFromPSF_keys_trimmed_witness :
  TrimWhitespace true "q" = "q"
  ∧ starts_with_whitespace true "q" = false
  ∧ ends_with_whitespace true "q" = false
  ∧ no_newline "q".
Proof.
  apply (GetTagsFromPSF_keys_trimmed true x25 (mkFile blank_value_buffer 0)
           (mkTags {[ "q" := "" ]} ["q"]) (mkFile blank_value_buffer 25) "q" "").
  - vm_compute. reflexivity.
  - vm_compute. reflexivity.
Defined.

(** ** Records, line by line *)

Lemma string_app_assoc (a b c : string) : (a +:+ b) +:+ c = a +:+ (b +:+ c).
Proof.
  induction a as [|x a IH]; [reflexivity|].
  change (String x ((a +:+ b) +:+ c) = String x (a +:+ (b +:+ c))). rewrite IH. reflexivity.
Qed.

Lemma string_app_nil_r (a : string) : a +:+ "" = a.
Proof.
  induction a as [|x a IH]; [reflexivity|].
  change (String x (a +:+ "") = String x a). rewrite IH. reflexivity.
Qed.



Section Records.

Variable char_signed : bool.

Lemma foldl_bytes_chars l : ∀ st,
  foldl (λ st b, tag_step char_signed (ascii_of_byte b) st) st (List.map byte_of_ascii l)
  = parse_chars char_signed st l.
Proof.
  unfold parse_chars. induction l as [|c l IH]; intros st; [reflexivity|].
  cbn [List.map foldl]. rewrite ascii_of_byte_of_ascii. apply IH.
Qed.

Lemma tag_step_newline st :
  tag_step char_signed "010"%char st
  = mkTagState
      (if negb (string_is_empty (st_name st)) && negb (string_is_empty (st_value st))
       then merge_append (TrimWhitespace char_signed (st_name st))
              (TrimWhitespace char_signed (st_value st)) (st_tags st)
       else st_tags st) "" "" true.
Proof. unfold tag_step. rewrite decide_True by reflexivity. reflexivity. Qed.

Lemma tag_step_separator st :
  tag_step char_signed "="%char st
  = mkTagState (st_tags st) (st_name st) (st_value st) false.
Proof.
  unfold tag_step. rewrite decide_False by discriminate.
  rewrite decide_True by reflexivity. reflexivity.
Qed.

(** Characters other than 0x0A and '=' go to the name before the separator
    and to the value behind it. *)
Lemma parse_chars_name l : ∀ st,
  Forall (λ c, c ≠ "010"%char ∧ c ≠ "="%char) l → st_onName st = true →
  parse_chars char_signed st l
  = mkTagState (st_tags st) (st_name st +:+ String.string_of_list_ascii l)
      (st_value st) true.
Proof.
  unfold parse_chars. induction l as [|c l IH]; intros st HF Hon.
  - simpl. rewrite string_app_nil_r. destruct st; simpl in *. subst. reflexivity.
  - apply Forall_cons in HF. destruct HF as [[Hnl Heq] HF].
    cbn [foldl]. unfold tag_step at 2.
    rewrite (decide_False (P := (c = "010"%char))) by exact Hnl.
    rewrite (decide_False (P := (c = "="%char))) by exact Heq. rewrite Hon.
    rewrite IH by (try exact HF; reflexivity).
    cbn [st_tags st_name st_value String.string_of_list_ascii].
    rewrite string_app_assoc. reflexivity.
Qed.


(** Behind a separator that follows an empty name, nothing within the line
    gives the record a name. *)
Lemma parse_chars_nameless l : ∀ st,
  "010"%char ∉ l → st_onName st = false → st_name st = "" →
  st_tags (parse_chars char_signed st l) = st_tags st
  ∧ st_name (parse_chars char_signed st l) = ""
  ∧ st_onName (parse_chars char_signed st l) = false.
Proof.
  unfold parse_chars. induction l as [|c l IH]; intros st Hno Hon Hname.
  - simpl. tauto.
  - cbn [foldl].
    assert (Hc : c ≠ "010"%char) by (intros ->; apply Hno; left).
    assert (Hl : "010"%char ∉ l) by (intros H; apply Hno; right; exact H).
    assert (Hs : st_tags (tag_step char_signed c st) = st_tags st
                 ∧ st_onName (tag_step char_signed c st) = false
                 ∧ st_name (tag_step char_signed c st) = "").
    { unfold tag_step. rewrite decide_False by exact Hc.
      destruct (decide (c = "="%char)); [tauto|]. rewrite Hon. tauto. }
    destruct Hs as (Ht & Ho & Hn).
    destruct (IH _ Hl Ho Hn) as (IH1 & IH2 & IH3). rewrite IH1. tauto.
Qed.

Lemma plain_chars s :
  no_equals s → no_newline s →
  Forall (λ c, c ≠ "010"%char ∧ c ≠ "="%char) (String.list_ascii_of_string s).
Proof.
  unfold no_equals, no_newline. intros He Hn. apply Forall_forall. intros c Hc.
  split; intros ->; tauto.
Qed.



(** A line without '=' and a line without a name, read from the start of a
    line, leave the parser as they found it. *)
Lemma parse_chars_stray_line t rec :
  no_newline rec →
  no_equals rec ∨ (∃ rest, rec = "=" +:+ rest) →
  parse_chars char_signed (mkTagState t "" "" true)
    (String.list_ascii_of_string rec ++ ["010"%char])
  = mkTagState t "" "" true.
Proof.
  intros Hnl Hcase. unfold parse_chars. rewrite foldl_app.
  fold (parse_chars char_signed (mkTagState t "" "" true) (String.list_ascii_of_string rec)).
  destruct Hcase as [Hne|[rest ->]].
  - rewrite parse_chars_name by (try apply plain_chars; auto).
    cbn [foldl st_tags st_name st_value]. rewrite tag_step_newline.
    cbn [st_tags st_name st_value string_is_empty negb]. rewrite andb_false_r. reflexivity.
  - change (String.list_ascii_of_string ("=" +:+ rest))
      with ("="%char :: String.list_ascii_of_string rest).
    unfold parse_chars at 1. cbn [foldl]. rewrite tag_step_separator.
    cbn [st_tags st_name st_value].
    fold (parse_chars char_signed (mkTagState t "" "" false) (String.list_ascii_of_string rest)).
    destruct (parse_chars_nameless (String.list_ascii_of_string rest)
                (mkTagState t "" "" false)) as (H1 & H2 & H3); try reflexivity.
    { unfold no_newline in Hnl. cbn in Hnl. intros H. apply Hnl. right. exact H. }
    rewrite tag_step_newline. rewrite H1, H2. reflexivity.
Qed.

(** After a 0x0A, and at the start, the parser holds no partial record. *)
Lemma parse_tags_line_start bs :
  bs = [] ∨ last bs = Some x0a →
  parse_tags char_signed bs
  = mkTagState (st_tags (parse_tags char_signed bs)) "" "" true.
Proof.
  intros [->|Hl]; [reflexivity|].
  apply last_Some in Hl. destruct Hl as [bs' ->].
  unfold parse_tags. rewrite foldl_app. cbn [foldl].
  change (ascii_of_byte x0a) with "010"%char.
  rewrite tag_step_newline. reflexivity.
Qed.

End Records.

(** ** MakeNCSF followed by GetTagsFromPSF *)


Lemma starts_with_nil_false pat : pat ≠ [] → starts_with pat [] = false.
Proof. destruct pat; [congruence|reflexivity]. Qed.

Section TagRoundTrip.

Variable char_signed : bool.
Variable compress2 : list byte → list byte.
Variable crc32 : list byte → Z.

Hypothesis compress2_nonempty : ∀ p, p ≠ [] → compress2 p ≠ [].



End TagRoundTrip.



(** ** Lines that are no records *)

Lemma parse_tags_stray_line char_signed before rec after :
  before = [] ∨ last before = Some x0a →
  no_newline rec →
  no_equals rec ∨ (∃ rest, rec = "=" +:+ rest) →
  parse_tags char_signed (before ++ bytes_of_string (line rec) ++ after)
  = parse_tags char_signed (before ++ after).
Proof.
  intros Hstart Hnl Hcase.
  pose proof (parse_tags_line_start char_signed before Hstart) as Hb.
  unfold parse_tags in *. rewrite !foldl_app. rewrite Hb. f_equal.
  unfold line, newline, bytes_of_string, String.list_byte_of_string.
  rewrite list_ascii_of_string_app. cbn [String.list_ascii_of_string].
  rewrite foldl_bytes_chars. apply parse_chars_stray_line; assumption.
Qed.

(** X15: a line of the tag block that holds no '=', or that begins with
    '=', adds nothing to the dictionary and does not disturb the records
    around it: the file is read as if the line were not there. *)
Theorem GetTagsFromPSF_skips_stray_line char_signed versionByte pre before rec after p f' :
  let d := pre ++ TagHeaderVector ++ before ++ bytes_of_string (line rec) ++ after in
  CheckForValidPSF char_signed versionByte (mkFile d p) = inr ((), f') →
  (∀ j : nat, (j < length pre)%nat → starts_with TagHeaderVector (drop j d) = false) →
  before = [] ∨ last before = Some x0a →
  no_newline rec →
  no_equals rec ∨ (∃ rest, rec = "=" +:+ rest) →
  ∃ f'', GetTagsFromPSF char_signed versionByte (mkFile d p)
         = inr (st_tags (parse_tags char_signed (before ++ after)), f'').
Proof.
  intros d Hv Hfirst Hstart Hnl Hcase.
  destruct (GetTagsFromPSF_at_first_marker _ _ _ _ _ _ Hv Hfirst) as [_ Ht].
  eexists. subst d. cbn zeta in Ht.
  rewrite Ht, parse_tags_stray_line by assumption. reflexivity.
Qed.

Lemma GetTagsFromPSF_skips_stray_line_witness :
  ∃ f'', GetTagsFromPSF true x25 (mkFile stray_lines_buffer 0)
         = inr (st_tags (parse_tags true
                  (bytes_of_string (line "a=b")
                   ++ bytes_of_string (line "=no name=x") ++ bytes_of_string (line "c=d"))), f'').
Proof.
  apply (GetTagsFromPSF_skips_stray_line true x25 (psf_header x25 0 0 0)
           (bytes_of_string (line "a=b")) "no separator"
           (bytes_of_string (line "=no name=x") ++ bytes_of_string (line "c=d")) 0
           (mkFile stray_lines_buffer 16)).
  - vm_compute. reflexivity.
  - first_marker_at 16.
  - right. reflexivity.
  - unfold no_newline. cbn. intros H.
    repeat (apply elem_of_cons in H; destruct H as [H|H]; [discriminate|]).
    apply elem_of_nil in H. exact H.
  - left. unfold no_equals. cbn. intros H.
    repeat (apply elem_of_cons in H; destruct H as [H|H]; [discriminate|]).
    apply elem_of_nil in H. exact H.
Defined.

(** Both stray lines of that file are dropped. *)
Lemma stray_lines_parse char_signed :
  st_tags (parse_tags char_signed
     (bytes_of_string (line "a=b") ++ bytes_of_string (line "no separator")
      ++ bytes_of_string (line "=no name=x") ++ bytes_of_string (line "c=d")))
  = mkTags {[ "a" := "b"; "c" := "d" ]} ["a"; "c"].
Proof. destruct char_signed; vm_compute; reflexivity. Qed.

(** ** The volume table *)

Lemma Cnv_Scale_checked :
  forallb (λ s, (-32768 <=? Cnv_Scale s) && (Cnv_Scale s <=? 0)
                && bool_decide (Cnv_Scale_lut
                                  !! Z.to_nat (if negb (Z.land s 128 =? 0) then 127 else s)
                                = Some (Cnv_Scale s))
                && ((s <? 128) || (Cnv_Scale s =? 0))
                && (Z.eqb s 0 || negb (Cnv_Scale s =? -32768)))
          (seqZ 0 256) = true.
Proof. vm_compute. reflexivity. Qed.

Lemma Cnv_Scale_monotone_checked :
  forallb (λ s, Cnv_Scale s <=? Cnv_Scale (s + 1)) (seqZ 0 127) = true.
Proof. vm_compute. reflexivity. Qed.

(** X16: on every value of a [uint8_t] volume the table is read inside its
    128 entries; the result lies between -32768 and 0, is -32768 at volume
    0 only, and is 0 for every volume with bit 7 set. *)
Theorem Cnv_Scale_range scale :
  0 <= scale < 256 →
  (∃ i : nat, (i < 128)%nat ∧ Cnv_Scale_lut !! i = Some (Cnv_Scale scale))
  ∧ -32768 <= Cnv_Scale scale <= 0
  ∧ (Cnv_Scale scale = -32768 ↔ scale = 0)
  ∧ (128 <= scale → Cnv_Scale scale = 0).
Proof.
  intros Hs. pose proof Cnv_Scale_checked as H.
  rewrite forallb_forall in H. specialize (H scale).
  rewrite <- list_elem_of_In, elem_of_seqZ in H. specialize (H ltac:(lia)).
  repeat (apply andb_true_iff in H; destruct H as [H ?]).
  match goal with Hb : bool_decide _ = true |- _ => apply bool_decide_eq_true in Hb;
    rename Hb into Hlut end.
  split; [|split; [lia|split; [|]]].
  - eexists. split; [|exact Hlut].
    apply lookup_lt_Some in Hlut. exact Hlut.
  - split.
    + intros Hm. destruct (Z.eqb_spec scale 0); [assumption|].
      rewrite Hm in *. discriminate.
    + intros ->. reflexivity.
  - intros Hhi. destruct (Z.ltb_spec scale 128); [lia|]. cbn [orb] in *. lia.
Qed.

Lemma Cnv_Scale_range_witness :
  (∃ i : nat, (i < 128)%nat ∧ Cnv_Scale_lut !! i = Some (Cnv_Scale 100))
  ∧ -32768 <= Cnv_Scale 100 <= 0
  ∧ (Cnv_Scale 100 = -32768 ↔ 100 = 0)
  ∧ (128 <= 100 → Cnv_Scale 100 = 0).
Proof. apply (Cnv_Scale_range 100). lia. Defined.

(** X17: below bit 7 a higher volume never gives a lower scale. *)
Theorem Cnv_Scale_monotone a b :
  0 <= a → a <= b → b < 128 → Cnv_Scale a <= Cnv_Scale b.
Proof.
  intros Ha Hab Hb.
  replace b with (a + Z.of_nat (Z.to_nat (b - a))) in * by lia.
  induction (Z.to_nat (b - a)) as [|n IH]; [rewrite Z.add_0_r; lia|].
  pose proof Cnv_Scale_monotone_checked as H.
  rewrite forallb_forall in H. specialize (H (a + Z.of_nat n)).
  rewrite <- list_elem_of_In, elem_of_seqZ in H. specialize (H ltac:(lia)).
  apply Z.leb_le in H.
  replace (a + Z.of_nat (S n)) with (a + Z.of_nat n + 1) by lia.
  etransitivity; [apply IH; lia|exact H].
Qed.

Lemma Cnv_Scale_monotone_witness : Cnv_Scale 64 <= Cnv_Scale 100.
Proof. apply (Cnv_Scale_monotone 64 100); lia. Defined.

(** ** More on the duration engine *)

Section EngineMore.

Context {SBNK SWAR : Type}.
Variable new_TimerPlayer : @TimerPlayer SBNK SWAR.
Variable interpreter : @TimerPlayer SBNK SWAR → Run.
Variable SecondsToString : Q → string.
Variable stringify : Z → string.

(** X18: the watchdog of the static [GetTime].  The interpreter runs on the
    player with [loops] set to the number asked for.  When each of the
    [loopCount] polls sees it still working, the verdict is the
    undetermined (-1, LOOP), whatever the interpreter computed; as soon as
    one poll within the bound sees it done, the verdict is the
    interpreter's own; and a bound of 0 always gives the undetermined
    verdict. *)
Theorem GetTime_player_watchdog player loopCount numberOfLoops :
  let thread := interpreter (set_loops numberOfLoops player) in
  let result := GetTime_player interpreter player loopCount numberOfLoops in
  p_loops (set_loops numberOfLoops player) = numberOfLoops
  ∧ ((∀ j, (j < loopCount)%nat → doLength_at thread j = true) →
       result = mkTime (-1) LOOP ∧ undetermined result = true)
  ∧ ((∃ j, (j < loopCount)%nat ∧ doLength_at thread j = false) →
       result = run_length thread)
  ∧ (loopCount = O → result = mkTime (-1) LOOP).
Proof.
  intros thread result. split; [reflexivity|].
  destruct (GetTime_player_cases interpreter player loopCount numberOfLoops)
    as [[Hall Hr]|[[k [Hk Hf]] Hr]]; fold thread in Hall || fold thread in Hf;
    fold thread result in Hr.
  - split; [intros _; rewrite Hr; split; reflexivity|].
    split; [|intros _; exact Hr].
    intros (j & Hj & Hf). rewrite Hall in Hf by exact Hj. discriminate.
  - split; [|split; [intros _; exact Hr|intros ->; lia]].
    intros Hall. rewrite Hall in Hf by exact Hk. discriminate.
Qed.

(** The binding loop changes the wave-archive slots only. *)
Lemma bind_swars_slots_from (sdat : @SDAT SBNK SWAR) sbnkInfo n :
  ∀ i (p p' : @TimerPlayer SBNK SWAR),
  bind_swars sdat sbnkInfo i n p = Some p' →
  p_sseq p' = p_sseq p ∧ p_sseqVol p' = p_sseqVol p ∧ p_sbnk p' = p_sbnk p
  ∧ p_maxSeconds p' = p_maxSeconds p ∧ p_doNotes p' = p_doNotes p
  ∧ p_loops p' = p_loops p
  ∧ length (p_swar p') = length (p_swar p)
  ∧ ∀ j : nat,
      ((j < i)%nat ∨ (i + n ≤ j)%nat → p_swar p' !! j = p_swar p !! j)
      ∧ ((i ≤ j < i + n)%nat → (j < length (p_swar p))%nat →
           ∃ w, waveArc sbnkInfo !! j = Some w
                ∧ p_swar p' !! j
                  = if w =? 65535 then p_swar p !! j
                    else swar <$> WAVEARCrecord sdat !! Z.to_nat w).
Proof.
  induction n as [|n IH]; intros i p p' Hb; cbn [bind_swars] in Hb.
  - injection Hb as <-. do 7 (split; [reflexivity|]).
    intros j. split; [reflexivity|lia].
  - destruct (waveArc sbnkInfo !! i) as [w|] eqn:Hw; [|discriminate].
    cbn [mbind option_bind] in Hb.
    destruct (w =? 65535) eqn:E; cbn [negb] in Hb.
    + destruct (IH _ _ _ Hb) as (H1 & H2 & H3 & H4 & H5 & H6 & H7 & H8).
      do 7 (split; [assumption|]).
      intros j. destruct (H8 j) as [Hout Hin]. split.
      * intros Hj. apply Hout. lia.
      * intros Hj Hlen. destruct (decide (j = i)) as [->|Hne].
        -- exists w. split; [exact Hw|]. rewrite E. apply Hout. lia.
        -- apply Hin; lia.
    + destruct (WAVEARCrecord sdat !! Z.to_nat w) as [e|] eqn:He; [|discriminate].
      cbn [mbind option_bind] in Hb.
      destruct (IH _ _ _ Hb) as (H1 & H2 & H3 & H4 & H5 & H6 & H7 & H8).
      cbn [set_swar p_sseq p_sseqVol p_sbnk p_swar p_maxSeconds p_doNotes p_loops] in *.
      rewrite length_insert in H7, H8.
      do 7 (split; [assumption|]).
      intros j. destruct (H8 j) as [Hout Hin]. split.
      * intros Hj. rewrite Hout by lia. apply list_lookup_insert_ne. lia.
      * intros Hj Hlen. destruct (decide (j = i)) as [->|Hne].
        -- exists w. split; [exact Hw|]. rewrite E, He. cbn [fmap option_fmap option_map].
           rewrite Hout by lia. apply list_lookup_insert_eq. exact Hlen.
        -- destruct Hin as (w' & Hw' & Hs); [lia|lia|].
           exists w'. split; [exact Hw'|]. rewrite Hs.
           rewrite list_lookup_insert_ne by lia. reflexivity.
Qed.

(** X19: the loop over the four wave-archive slots of a bank.  A slot
    holding 0xFFFF leaves the player's slot as it was; any other slot
    binds the player's slot to the wave archive of that index; and no
    other member of the player is touched. *)
Theorem bind_swars_slots (sdat : @SDAT SBNK SWAR) sbnkInfo (p p' : @TimerPlayer SBNK SWAR) :
  length (p_swar p) = 4%nat →
  bind_swars sdat sbnkInfo 0 4 p = Some p' →
  (∀ i : nat, (i < 4)%nat →
     ∃ w, waveArc sbnkInfo !! i = Some w
          ∧ p_swar p' !! i
            = if w =? 65535 then p_swar p !! i
              else swar <$> WAVEARCrecord sdat !! Z.to_nat w)
  ∧ length (p_swar p') = 4%nat
  ∧ p_sseq p' = p_sseq p ∧ p_sseqVol p' = p_sseqVol p ∧ p_sbnk p' = p_sbnk p
  ∧ p_maxSeconds p' = p_maxSeconds p ∧ p_doNotes p' = p_doNotes p
  ∧ p_loops p' = p_loops p.
Proof.
  intros Hlen Hb.
  destruct (bind_swars_slots_from _ _ _ _ _ _ Hb) as (H1 & H2 & H3 & H4 & H5 & H6 & H7 & H8).
  split; [|rewrite H7; do 6 (split; [assumption|]); assumption].
  intros i Hi. destruct (H8 i) as [_ Hin]. apply Hin; lia.
Qed.

End EngineMore.

Lemma bind_swars_slots_witness :
  (∀ i : nat, (i < 4)%nat →
     ∃ w, [65535; 0; 65535; 65535] !! i = Some w
          ∧ [None; Some (); None; None] !! i
            = if w =? 65535 then p_swar fresh_player !! i
              else swar <$> WAVEARCrecord wave_sdat !! Z.to_nat w)
  ∧ length [None; Some (); None; None] = 4%nat
  ∧ None = p_sseq fresh_player ∧ 0 = p_sseqVol fresh_player ∧ None = p_sbnk fresh_player
  ∧ 0%Q = p_maxSeconds fresh_player ∧ false = p_doNotes fresh_player
  ∧ 0 = p_loops fresh_player.
Proof.
  apply (bind_swars_slots wave_sdat
           (mkInfoBANK [] "BANK_TITLE" "" 1 0 [65535; 0; 65535; 65535] None)
           fresh_player
           (mkPlayer None 0 None [None; Some (); None; None] 0 false 0)).
  - reflexivity.
  - reflexivity.
Defined.

Section EnginePasses.

Context {SBNK SWAR : Type}.
Variable new_TimerPlayer : @TimerPlayer SBNK SWAR.
Variable interpreter : @TimerPlayer SBNK SWAR → Run.
Variable SecondsToString : Q → string.
Variable stringify : Z → string.

(** X20: how the two probe passes are set up.  The first runs a fresh
    player on the sequence with a ceiling of 6000 seconds and nothing else
    set; the second, when there is one, runs a fresh player on the same
    sequence with the volume of the sequence sent through the volume table,
    the bank of the sequence, the wave archives that bank names, notes
    switched on, and a ceiling 30 seconds above the length the first pass
    found. *)
Theorem GetTime_passes_players sdat sseq numberOfLoops final gotLength passes :
  length (p_swar new_TimerPlayer) = 4%nat →
  GetTime_passes new_TimerPlayer interpreter sdat sseq numberOfLoops
    = Some (final, gotLength, passes) →
  ∃ info player1,
    SEQrecord sdat !! entryNumber sseq = Some info
    ∧ passes !! 0%nat = Some (player1, 20%nat)
    ∧ p_sseq player1 = Some (sseq, seq_origFilename info)
    ∧ p_maxSeconds player1 = 6000%Q
    ∧ p_doNotes player1 = p_doNotes new_TimerPlayer
    ∧ p_sseqVol player1 = p_sseqVol new_TimerPlayer
    ∧ p_sbnk player1 = p_sbnk new_TimerPlayer
    ∧ p_swar player1 = p_swar new_TimerPlayer
    ∧ ∀ player2 bound2, passes !! 1%nat = Some (player2, bound2) →
        ∃ sbnkInfo,
          BANKrecord sdat !! Z.to_nat (bank info) = Some sbnkInfo
          ∧ p_sseq player2 = Some (sseq, seq_origFilename info)
          ∧ p_sseqVol player2 = Cnv_Scale (vol info)
          ∧ p_sbnk player2 = sbnk sbnkInfo
          ∧ p_maxSeconds player2
            = (time (GetTime_player interpreter player1 20 numberOfLoops) + 30)%Q
          ∧ p_doNotes player2 = true
          ∧ ∀ i : nat, (i < 4)%nat →
              ∃ w, waveArc sbnkInfo !! i = Some w
                   ∧ p_swar player2 !! i
                     = if w =? 65535 then p_swar new_TimerPlayer !! i
                       else swar <$> WAVEARCrecord sdat !! Z.to_nat w.
Proof.
  intros Hlen Hp. unfold GetTime_passes in Hp.
  destruct (SEQrecord sdat !! entryNumber sseq) as [info|] eqn:Hinfo; [|discriminate].
  cbn [mbind option_bind] in Hp.
  set (player1 := set_maxSeconds 6000 (Setup sseq (seq_origFilename info) new_TimerPlayer))
    in *.
  set (first := GetTime_player interpreter player1 20 numberOfLoops) in *.
  exists info, player1. split; [reflexivity|].
  destruct (negb (static_cast_int (time first) =? -1) && bool_decide (type first = END)).
  - destruct (BANKrecord sdat !! Z.to_nat (bank info)) as [sbnkInfo|] eqn:Hbank;
      [|discriminate].
    cbn [mbind option_bind] in Hp.
    destruct (bind_swars sdat sbnkInfo 0 4 _) as [p2|] eqn:Hbind; [|discriminate].
    cbn [mbind option_bind] in Hp.
    destruct (bind_swars_slots_from _ _ _ _ _ _ Hbind)
      as (H1 & H2 & H3 & H4 & H5 & H6 & H7 & H8).
    cbn [set_sbnk Setup set_sseqVol p_sseq p_sseqVol p_sbnk p_swar p_maxSeconds
         p_doNotes p_loops] in H1, H2, H3, H7, H8.
    assert (Hpasses : passes = [(player1, 20%nat);
                                (set_doNotes true (set_maxSeconds (time first + 30) p2),
                                 40%nat)]).
    { destruct (negb (static_cast_int (time (GetTime_player interpreter _ 40 numberOfLoops))
                      =? -1)); injection Hp as _ _ <-; reflexivity. }
    rewrite Hpasses. do 7 (split; [reflexivity|]).
    intros player2 bound2 Hl. injection Hl as <- <-.
    exists sbnkInfo. split; [reflexivity|].
    cbn [set_doNotes set_maxSeconds p_sseq p_sseqVol p_sbnk p_swar p_maxSeconds p_doNotes].
    do 5 (split; [assumption || reflexivity|]).
    intros i Hi. destruct (H8 i) as [_ Hin]. apply Hin; lia.
  - injection Hp as _ _ <-. do 7 (split; [reflexivity|]).
    intros player2 bound2 Hl. discriminate.
Qed.

(** X21: the second pass never loses a length.  The final verdict is
    undetermined exactly when the first pass was; [gotLength] is set only
    behind two passes, the first of type END, and then the final verdict is
    determined; and a first pass of type LOOP is final. *)
Theorem GetTime_passes_keeps_length sdat sseq numberOfLoops final gotLength passes :
  GetTime_passes new_TimerPlayer interpreter sdat sseq numberOfLoops
    = Some (final, gotLength, passes) →
  ∃ player1,
    passes !! 0%nat = Some (player1, 20%nat)
    ∧ let first := GetTime_player interpreter player1 20 numberOfLoops in
      undetermined final = undetermined first
      ∧ (gotLength = true →
           length passes = 2%nat ∧ undetermined final = false ∧ type first = END)
      ∧ (type first = LOOP → final = first ∧ gotLength = false ∧ length passes = 1%nat).
Proof.
  intros Hp. unfold GetTime_passes in Hp.
  destruct (SEQrecord sdat !! entryNumber sseq) as [info|] eqn:Hinfo; [|discriminate].
  cbn [mbind option_bind] in Hp.
  set (player1 := set_maxSeconds 6000 (Setup sseq (seq_origFilename info) new_TimerPlayer))
    in *.
  set (first := GetTime_player interpreter player1 20 numberOfLoops) in *.
  exists player1. fold first.
  destruct (negb (static_cast_int (time first) =? -1) && bool_decide (type first = END))
    eqn:Hc.
  - apply andb_true_iff in Hc. destruct Hc as [Hdet Hend].
    apply negb_true_iff in Hdet. apply bool_decide_eq_true in Hend.
    destruct (BANKrecord sdat !! Z.to_nat (bank info)) as [sbnkInfo|]; [|discriminate].
    cbn [mbind option_bind] in Hp.
    destruct (bind_swars sdat sbnkInfo 0 4 _) as [p2|]; [|discriminate].
    cbn [mbind option_bind] in Hp.
    destruct (static_cast_int (time (GetTime_player interpreter _ 40 numberOfLoops)) =? -1)
      eqn:Hs; cbn [negb] in Hp; injection Hp as <- <- <-.
    + split; [reflexivity|]. cbn zeta. split; [reflexivity|].
      split; [discriminate|]. rewrite Hend. discriminate.
    + split; [reflexivity|]. cbn zeta. unfold undetermined. rewrite Hs, Hdet.
      split; [reflexivity|]. split; [intros _; repeat split; assumption|].
      rewrite Hend. discriminate.
  - injection Hp as <- <- <-. split; [reflexivity|]. cbn zeta.
    split; [reflexivity|]. split; [discriminate|]. intros _. repeat split.
Qed.

(** The engine writes to the tags "length" and "fade" and to no other. *)
Lemma GetTime_tags_other filename tgs verbose fadeLoop fadeOneShot length gotLength name :
  name ≠ "length" → name ≠ "fade" →
  tags (GetTime_tags SecondsToString stringify filename tgs verbose fadeLoop fadeOneShot
          length gotLength).1 !! name
  = tags tgs !! name.
Proof.
  intros Hl Hf. unfold GetTime_tags.
  destruct (negb (static_cast_int (time length) =? -1)).
  - cbn [fst TagList_set tags]. rewrite lookup_insert_ne by congruence.
    destruct (decide (type length = LOOP)); cbn [TagList_set tags];
      apply lookup_insert_ne; congruence.
  - destruct verbose; [|reflexivity]. cbn [fst Remove tags].
    rewrite !lookup_delete_ne by congruence. reflexivity.
Qed.

(** X22: whatever the verdict and whatever [verbose], every tag other than
    "length" and "fade" is after the call what it was before. *)
Theorem GetTime_touches_two_tags filename sdat sseq tgs verbose numberOfLoops
    fadeLoop fadeOneShot o name :
  GetTime new_TimerPlayer interpreter SecondsToString stringify
    filename sdat sseq tgs verbose numberOfLoops fadeLoop fadeOneShot = Some o →
  name ≠ "length" → name ≠ "fade" →
  tags (out_tags o) !! name = tags tgs !! name.
Proof.
  intros Ho Hl Hf. unfold GetTime in Ho.
  destruct (GetTime_passes _ _ _ _ _) as [[[final got] passes]|]; [|discriminate].
  cbn [mbind option_bind] in Ho.
  pose proof (GetTime_tags_other filename tgs verbose fadeLoop fadeOneShot final got name
                Hl Hf) as Ht.
  destruct (GetTime_tags _ _ _ _ _ _ _ _ _) as [tags' cout].
  injection Ho as <-. exact Ht.
Qed.

(** X23: what [verbose] changes.  Without it nothing is printed.  With it
    one line is printed, and a second one exactly for a determined verdict
    of type END that the second pass did not confirm.  For a determined
    verdict the tags are the same with and without it. *)
Theorem GetTime_report filename sdat sseq tgs numberOfLoops fadeLoop fadeOneShot
    final gotLength passes :
  GetTime_passes new_TimerPlayer interpreter sdat sseq numberOfLoops
    = Some (final, gotLength, passes) →
  ∃ quiet loud,
    GetTime new_TimerPlayer interpreter SecondsToString stringify
      filename sdat sseq tgs false numberOfLoops fadeLoop fadeOneShot = Some quiet
    ∧ GetTime new_TimerPlayer interpreter SecondsToString stringify
        filename sdat sseq tgs true numberOfLoops fadeLoop fadeOneShot = Some loud
    ∧ out_cout quiet = []
    ∧ out_passes quiet = passes ∧ out_passes loud = passes
    ∧ length (out_cout loud)
      = (if negb (undetermined final) && bool_decide (type final = END) && negb gotLength
         then 2%nat else 1%nat)
    ∧ (undetermined final = false → out_tags quiet = out_tags loud)
    ∧ (undetermined final = true →
         out_cout loud = ["Unable to calculate time for " +:+ filename +:+ newline]).
Proof.
  intros Hp. unfold GetTime. rewrite Hp. cbn [mbind option_bind].
  unfold GetTime_tags, undetermined.
  destruct (static_cast_int (time final) =? -1) eqn:Hd; cbn [negb andb].
  - eexists _, _. split; [reflexivity|]. split; [reflexivity|].
    cbn [out_cout out_passes out_tags length].
    repeat split. discriminate.
  - eexists _, _. split; [reflexivity|]. split; [reflexivity|].
    cbn [out_cout out_passes out_tags].
    split; [reflexivity|]. split; [reflexivity|]. split; [reflexivity|].
    split; [|split; [reflexivity|discriminate]].
    assert (Ht : type (if static_cast_int (time final) =? 0
                       then mkTime 1 (type final) else final) = type final)
      by (destruct (static_cast_int (time final) =? 0); reflexivity).
    rewrite Ht.
    destruct (bool_decide (type final = END) && negb gotLength); reflexivity.
Qed.

End EnginePasses.

Lemma GetTime_passes_players_witness :
  ∃ info player1,
    SEQrecord wave_sdat !! entryNumber demo_sseq = Some info
    ∧ wave_run.2 !! 0%nat = Some (player1, 20%nat)
    ∧ ∀ player2 bound2, wave_run.2 !! 1%nat = Some (player2, bound2) →
        p_sseqVol player2 = Cnv_Scale (vol info)
        ∧ p_swar player2 !! 1%nat = Some (Some ()).
Proof.
  destruct (GetTime_passes_players fresh_player one_shot wave_sdat demo_sseq 2
              wave_run.1.1 wave_run.1.2 wave_run.2 eq_refl eq_refl)
    as (info & player1 & Hinfo & Hfirst & _ & _ & _ & _ & _ & _ & Hsecond).
  exists info, player1. split; [exact Hinfo|]. split; [exact Hfirst|].
  intros player2 bound2 Hl.
  destruct (Hsecond _ _ Hl) as (sbnkInfo & Hbank & _ & Hvol & _ & _ & _ & Hslots).
  split; [exact Hvol|].
  destruct (Hslots 1%nat ltac:(lia)) as (w & Hw & Hs).
  vm_compute in Hinfo. injection Hinfo as <-.
  vm_compute in Hbank. injection Hbank as <-.
  vm_compute in Hw. injection Hw as <-. exact Hs.
Defined.

Lemma GetTime_passes_keeps_length_witness :
  ∃ player1,
    wave_run.2 !! 0%nat = Some (player1, 20%nat)
    ∧ let first := GetTime_player one_shot player1 20 2 in
      undetermined wave_run.1.1 = undetermined first
      ∧ (wave_run.1.2 = true →
           length wave_run.2 = 2%nat ∧ undetermined wave_run.1.1 = false ∧ type first = END)
      ∧ (type first = LOOP →
           wave_run.1.1 = first ∧ wave_run.1.2 = false ∧ length wave_run.2 = 1%nat).
Proof.
  apply (GetTime_passes_keeps_length fresh_player one_shot wave_sdat demo_sseq 2
           wave_run.1.1 wave_run.1.2 wave_run.2).
  reflexivity.
Defined.

Lemma GetTime_touches_two_tags_witness :
  tags (TagList_set "length" "0:13" (TagList_set "fade" "0"
          (TagList_set "title" "Route 1" TagList_empty))) !! "title"
  = tags (TagList_set "title" "Route 1" TagList_empty) !! "title".
Proof.
  apply (GetTime_touches_two_tags fresh_player one_shot minutes_seconds decimal
           "BGM_TITLE" wave_sdat demo_sseq (TagList_set "title" "Route 1" TagList_empty)
           false 2 10 0
           (mkOutcome (TagList_set "length" "0:13" (TagList_set "fade" "0"
                         (TagList_set "title" "Route 1" TagList_empty)))
                      [] wave_run.2) "title").
  - vm_compute. reflexivity.
  - discriminate.
  - discriminate.
Defined.

Lemma GetTime_report_witness :
  ∃ quiet loud,
    GetTime fresh_player one_shot minutes_seconds decimal
      "BGM_TITLE" wave_sdat demo_sseq TagList_empty false 2 10 0 = Some quiet
    ∧ GetTime fresh_player one_shot minutes_seconds decimal
        "BGM_TITLE" wave_sdat demo_sseq TagList_empty true 2 10 0 = Some loud
    ∧ out_cout quiet = []
    ∧ out_passes quiet = wave_run.2 ∧ out_passes loud = wave_run.2
    ∧ length (out_cout loud)
      = (if negb (undetermined wave_run.1.1) && bool_decide (type wave_run.1.1 = END)
            && negb wave_run.1.2
         then 2%nat else 1%nat)
    ∧ (undetermined wave_run.1.1 = false → out_tags quiet = out_tags loud)
    ∧ (undetermined wave_run.1.1 = true →
         out_cout loud = ["Unable to calculate time for " +:+ "BGM_TITLE" +:+ newline]).
Proof.
  apply (GetTime_report fresh_player one_shot minutes_seconds decimal
           "BGM_TITLE" wave_sdat demo_sseq TagList_empty 2 10 0
           wave_run.1.1 wave_run.1.2 wave_run.2).
  reflexivity.
Defined.

(** ** File names and directories *)

Lemma rfind_last c stem ext :
  c ∉ ext → rfind c (stem ++ c :: ext) = Some (length stem).
Proof.
  intros Hno.
  assert (Hext : rfind c ext = None).
  { induction ext as [|x ext IH]; [reflexivity|]. cbn [rfind].
    rewrite IH by (intros H; apply Hno; right; exact H).
    rewrite decide_False; [reflexivity|]. intros ->. apply Hno. left. }
  induction stem as [|x stem IH].
  - cbn [app rfind length]. rewrite Hext. rewrite decide_True by reflexivity. reflexivity.
  - cbn [app rfind length]. rewrite IH. reflexivity.
Qed.

Lemma rfind_absent c l : c ∉ l → rfind c l = None.
Proof.
  induction l as [|x l IH]; intros Hno; [reflexivity|]. cbn [rfind].
  rewrite IH by (intros H; apply Hno; right; exact H).
  rewrite decide_False; [reflexivity|]. intros ->. apply Hno. left.
Qed.

(** X24: the extension of a name is what follows its last dot, the dot
    included: a name without a dot has the empty extension, and behind any
    stem and a dot it is its own extension. *)
Theorem GetExtension_last_dot stem ext :
  no_dot ext →
  GetExtension ext = ""
  ∧ GetExtension (stem +:+ "." +:+ ext) = "." +:+ ext.
Proof.
  unfold no_dot, GetExtension. intros Hno. split.
  - rewrite rfind_absent by exact Hno. reflexivity.
  - rewrite list_ascii_of_string_app.
    change (String.list_ascii_of_string ("." +:+ ext))
      with ("."%char :: String.list_ascii_of_string ext).
    rewrite rfind_last by exact Hno. rewrite drop_app_length.
    cbn [String.string_of_list_ascii]. rewrite String.string_of_list_ascii_of_string.
    reflexivity.
Qed.

Lemma GetExtension_last_dot_witness :
  GetExtension "sseq" = ""
  ∧ GetExtension ("BGM.v2" +:+ "." +:+ "sseq") = "." +:+ "sseq".
Proof.
  apply (GetExtension_last_dot "BGM.v2" "sseq").
  unfold no_dot. cbn. intros H.
  repeat (apply elem_of_cons in H; destruct H as [H|H]; [discriminate|]).
  apply elem_of_nil in H. exact H.
Defined.

Section DirectoryFacts.

Variable opendir : string → option (list string).
Variable DirExists : string → bool.

Lemma extension_match (extensions : list string) (thisExtension : string) :
  bool_decide (is_Some (list_find (λ extension, extension = thisExtension) extensions))
  = bool_decide (thisExtension ∈ extensions).
Proof.
  apply bool_decide_ext. split.
  - intros [[i x] Hf]. apply list_find_Some in Hf. destruct Hf as (Hi & -> & _).
    apply list_elem_of_lookup. exists i. exact Hi.
  - intros Hin. destruct (list_find (λ extension, extension = thisExtension) extensions)
      as [r|] eqn:Hf; [eexists; reflexivity|].
    apply list_find_None in Hf. rewrite Forall_forall in Hf.
    exfalso. apply (Hf _ Hin). reflexivity.
Qed.

(** The loop over the entries pushes the listed ones, in their order. *)
Lemma foldl_directory_entry finalPath extensions entries : ∀ files,
  foldl (directory_entry DirExists finalPath extensions) files entries
  = files ++ map (λ e, finalPath +:+ e)
               (List.filter (listed DirExists finalPath extensions) entries).
Proof.
  induction entries as [|e entries IH]; intros files.
  - cbn. rewrite app_nil_r. reflexivity.
  - cbn [foldl List.filter]. rewrite IH. unfold directory_entry, listed.
    rewrite extension_match.
    destruct (bool_decide (e = ".")); [reflexivity|].
    destruct (bool_decide (e = "..")); [reflexivity|]. cbn [orb negb andb].
    destruct (DirExists (finalPath +:+ e)); [reflexivity|]. cbn [negb andb].
    destruct (bool_decide (extensions = []) || bool_decide (GetExtension e ∈ extensions));
      [|reflexivity].
    cbn [map]. rewrite <- app_assoc. reflexivity.
Qed.

(** X25: the listing of a directory.  For a path that is not empty the
    result holds, in the order of the directory, the entries other than
    "." and ".." that are no directories and, when extensions are given,
    end in one of them, each behind the path and one slash; a directory
    that cannot be opened gives the empty list. *)
Theorem GetFilesInDirectory_listing path extensions :
  path ≠ "" →
  ∃ files,
    GetFilesInDirectory opendir DirExists path extensions = Some files
    ∧ files = match opendir (c_str path) with
              | Some entries =>
                  map (λ e, with_slash path +:+ e)
                      (List.filter (listed DirExists (with_slash path) extensions) entries)
              | None => []
              end
    ∧ ∀ file, file ∈ files ↔
        ∃ entries e, opendir (c_str path) = Some entries ∧ e ∈ entries
                     ∧ file = with_slash path +:+ e
                     ∧ e ≠ "." ∧ e ≠ ".." ∧ DirExists file = false
                     ∧ (extensions = [] ∨ GetExtension e ∈ extensions).
Proof.
  intros Hne. unfold GetFilesInDirectory.
  destruct (last (String.list_ascii_of_string path)) as [c|] eqn:Hlast.
  2:{ exfalso. apply Hne. apply last_None in Hlast.
      destruct path; [reflexivity|discriminate]. }
  assert (Hfp : (if decide (c = "/"%char) then path else path +:+ "/") = with_slash path).
  { unfold with_slash. rewrite Hlast.
    destruct (decide (c = "/"%char)) as [->|Hc].
    - rewrite bool_decide_eq_true_2 by reflexivity. reflexivity.
    - rewrite bool_decide_eq_false_2 by congruence. reflexivity. }
  cbn zeta. rewrite Hfp.
  destruct (opendir (c_str path)) as [entries|].
  - eexists. split; [reflexivity|]. rewrite foldl_directory_entry. cbn [app].
    split; [reflexivity|]. intros file. rewrite list_elem_of_fmap. split.
    + intros (e & -> & He). rewrite list_elem_of_In in He.
      apply filter_In in He. destruct He as [He Hl]. rewrite <- list_elem_of_In in He.
      unfold listed in Hl.
      repeat (apply andb_true_iff in Hl; destruct Hl as [Hl ?]).
      exists entries, e. split; [reflexivity|]. split; [exact He|]. split; [reflexivity|].
      repeat match goal with
             | H : negb _ = true |- _ => apply negb_true_iff in H
             | H : bool_decide _ = false |- _ => apply bool_decide_eq_false in H
             end.
      split; [assumption|]. split; [assumption|]. split; [assumption|].
      match goal with H : _ || _ = true |- _ => apply orb_true_iff in H;
        destruct H as [H|H]; apply bool_decide_eq_true in H; [left|right]; exact H end.
    + intros (entries' & e & Heq & He & -> & H1 & H2 & H3 & H4).
      injection Heq as <-. exists e. split; [reflexivity|].
      rewrite list_elem_of_In. apply filter_In. rewrite <- list_elem_of_In.
      split; [exact He|]. unfold listed.
      rewrite (bool_decide_eq_false_2 _ H1), (bool_decide_eq_false_2 _ H2), H3.
      cbn [negb andb]. apply orb_true_iff.
      destruct H4 as [H4|H4]; [left|right]; apply bool_decide_eq_true_2; exact H4.
  - exists []. split; [reflexivity|]. split; [reflexivity|]. intros file. split.
    + intros H. apply elem_of_nil in H. contradiction.
    + intros (? & ? & ? & _). discriminate.
Qed.

End DirectoryFacts.

Lemma GetFilesInDirectory_listing_witness :
  ∃ files,
    GetFilesInDirectory demo_opendir demo_DirExists "music" [".sseq"] = Some files
    ∧ files = ["music/a.sseq"; "music/c.sseq"].
Proof.
  destruct (GetFilesInDirectory_listing demo_opendir demo_DirExists "music" [".sseq"])
    as (files & Hf & -> & _); [discriminate|].
  eexists. split; [exact Hf|]. vm_compute. reflexivity.
Defined.

(** The listing with no extension given: everything but the sub-directory. *)
Lemma GetFilesInDirectory_all :
  GetFilesInDirectory demo_opendir demo_DirExists "music" []
  = Some ["music/a.sseq"; "music/b.sbnk"; "music/c.sseq"; "music/README"].
Proof. vm_compute. reflexivity. Qed.

(** X26: after [RemoveFiles] the names of the list, as C strings, are gone
    from the file store, and every other file is as it was. *)
Theorem RemoveFiles_lookup files (fs : filesystem) name :
  RemoveFiles files fs !! name
  = if bool_decide (name ∈ c_str <$> files) then None else fs !! name.
Proof.
  unfold RemoveFiles. revert fs. induction files as [|f files IH]; intros fs.
  - cbn [foldl fmap list_fmap]. rewrite bool_decide_eq_false_2; [reflexivity|].
    apply not_elem_of_nil.
  - cbn [foldl]. rewrite IH. rewrite fmap_cons.
    destruct (decide (name ∈ c_str <$> files)) as [Hin|Hin].
    + rewrite !bool_decide_eq_true_2; [reflexivity|right; exact Hin|exact Hin].
    + rewrite (bool_decide_eq_false_2 _ Hin).
      destruct (decide (name = c_str f)) as [->|Hne].
      * rewrite bool_decide_eq_true_2 by left. apply lookup_delete_eq.
      * rewrite bool_decide_eq_false_2.
        -- apply lookup_delete_ne. congruence.
        -- intros H. apply elem_of_cons in H. destruct H; contradiction.
Qed.

(** ** The sections of a file written by MakeNCSF *)

Section Layout.

Variable compress2 : list byte → list byte.
Variable crc32 : list byte → Z.

Hypothesis compress2_nonempty : ∀ p, p ≠ [] → compress2 p ≠ [].


End Layout.

